(** * GoodPDF: content fitting engine, page-size resolver, renderer and
      Textora adapter — a shallow embedding and its verified properties.

    The development embeds these pieces of the repository:
    - the content fitting engine ([getBlockWeight], [optimizeContentToFit],
      [paginateContent]) of the document generator,
    - the page-size resolver and the renderer of [pdf/renderer],
    - the Textora adapter of [pdf/textoraAdapter.ts],
    - the page budget ([calculatePageBudget]), the generator's two calls
      into the fit engine and the sizes [DesignInjector] derives from the
      scale,
    - the editing operations on the paginated document ([handleMoveBlock],
      the confirmed deletions of a block and of a page, [handleAddPage]),
      as functions from the page data to the page data they set.

    JavaScript numbers are embedded as exact rationals extended with the
    two infinities and NaN (module [JS]). Page counts and z-indices are
    integers. The constants 0.7, 0.88, 1.05, 1.1, 1.12 and the products and
    quotients formed with them are exact here; the rounding IEEE doubles
    apply to them is not part of the model.

    The tables [weights] and [presetMap] are object literals: a lookup with
    a key they do not hold still finds the members every object inherits
    from [Object.prototype] ([JS.inherited]). A block weight is therefore
    an integer or no number at all ([JS.amount]), and a resolved page
    dimension a number or [undefined].

    A string is the UTF-8 encoding of the JavaScript string it stands for;
    white space is the white space of [\s] and [trim], of one to three
    bytes. *)

From Stdlib Require Import ZArith QArith Qround Qminmax Ascii String Sorted Lia Lqa.
From stdpp Require Import base list strings pretty gmap.

Set Warnings "-register-all".

Open Scope Z_scope.

(* ===================================================================== *)
(** ** JavaScript numbers and exceptions *)
(* ===================================================================== *)

Module JS.

(** A JavaScript number: a finite value, [Infinity], [-Infinity] or [NaN].
    Finite values are kept exact. *)
Inductive num : Type :=
| Fin (q : Q)
| PInf
| NInf
| NaN.

Definition Qltb (a b : Q) : bool := negb (Qle_bool b a).

(** [a / b] on finite operands: division by zero yields an infinity of
    the sign of [a], and [0 / 0] is [NaN]. *)
Definition div (a b : Q) : num :=
  if Qeq_bool b 0 then
    if Qltb 0 a then PInf else if Qltb a 0 then NInf else NaN
  else Fin (a / b).

(** [a > b]; every comparison with [NaN] is false. *)
Definition gt (a b : num) : bool :=
  match a, b with
  | NaN, _ | _, NaN => false
  | Fin x, Fin y => Qltb y x
  | PInf, PInf => false
  | PInf, _ => true
  | _, NInf => match a with NInf => false | _ => true end
  | _, _ => false
  end.

Definition lt (a b : num) : bool := gt b a.

(** [a === b] on numbers; [NaN] equals nothing. *)
Definition eqb (a b : num) : bool :=
  match a, b with
  | Fin x, Fin y => Qeq_bool x y
  | PInf, PInf | NInf, NInf => true
  | _, _ => false
  end.

(** [a <= b]; false when either side is [NaN]. *)
Definition le (a b : num) : bool :=
  match a, b with
  | NaN, _ | _, NaN => false
  | _, _ => negb (gt a b)
  end.

Definition ofZ (z : Z) : num := Fin (inject_Z z).

(** The outcome of a call that may throw. *)
Inductive Exn (A : Type) : Type :=
| Ok (a : A)
| RangeError.
Arguments Ok {A} a.
Arguments RangeError {A}.

(** [Array(n).fill(x)]: a negative length is a [RangeError]. Arrays are
    unbounded here: the engine's limit of 2^32 - 1 entries, like the size
    of its memory, is not modelled. *)
Definition Array_fill {A} (n : Z) (x : A) : Exn (list A) :=
  if n <? 0 then RangeError else Ok (replicate (Z.to_nat n) x).

(** [arr.slice(0, e)]: a negative [e] counts from the end. *)
Definition slice0 {A} (arr : list A) (e : Z) : list A :=
  if e <? 0 then take (Z.to_nat (Z.max (Z.of_nat (length arr) + e) 0)) arr
  else take (Z.to_nat e) arr.

(** The names every plain object inherits from [Object.prototype]. Under
    one of them [table[key]] finds the inherited member, a function or, for
    [__proto__], the prototype object, whatever the table itself holds. *)
Definition Object_prototype : list string :=
  [ "constructor"; "__defineGetter__"; "__defineSetter__"; "hasOwnProperty";
    "__lookupGetter__"; "__lookupSetter__"; "isPrototypeOf";
    "propertyIsEnumerable"; "toString"; "valueOf"; "__proto__";
    "toLocaleString" ].

Definition inherited (key : string) : bool := bool_decide (key ∈ Object_prototype).

(** What the engine holds where it expects a number of units: a number,
    or a value that is none. An inherited member is not a number; [+]
    makes a string of it and of every sum it enters, [-] makes [NaN]. Of
    such a value only this much is kept: it is not a number, it stays so
    under [+] and [-], every comparison with a number is false, and a
    quotient with it is [NaN]. *)
Inductive amount : Type :=
| Units (n : Z)
| NotANumber.

(** [a + b] *)
Definition plus (a b : amount) : amount :=
  match a, b with
  | Units x, Units y => Units (x + y)
  | _, _ => NotANumber
  end.

(** [a - b] *)
Definition minus (a b : amount) : amount :=
  match a, b with
  | Units x, Units y => Units (x - y)
  | _, _ => NotANumber
  end.

(** [a > x] *)
Definition amount_gt (a : amount) (x : num) : bool :=
  match a with
  | Units n => gt (ofZ n) x
  | NotANumber => false
  end.

(** [a <= x] *)
Definition amount_le (a : amount) (x : num) : bool :=
  match a with
  | Units n => le (ofZ n) x
  | NotANumber => false
  end.

(** [a / c] *)
Definition amount_div (a : amount) (c : Z) : num :=
  match a with
  | Units n => div (inject_Z n) (inject_Z c)
  | NotANumber => NaN
  end.

(** [a] is a number no greater than the number [b], or neither of the two
    is a number. *)
Definition no_more (a b : amount) : Prop :=
  match a, b with
  | Units x, Units y => x <= y
  | NotANumber, NotANumber => True
  | _, _ => False
  end.

(** The value [sort] reads from a comparator: [NaN] counts as [0]. *)
Definition comparator_result (a : amount) : Z :=
  match a with
  | Units n => n
  | NotANumber => 0
  end.

(** The white space of [\s] and of [trim]: U+0009 to U+000D, U+0020,
    U+00A0, U+1680, U+2000 to U+200A, U+2028, U+2029, U+202F, U+205F,
    U+3000 and U+FEFF. In UTF-8 such a character takes one, two or three
    bytes; the three tests below recognise the three lengths. *)
Definition white1 (c1 : ascii) : bool :=
  let n1 := nat_of_ascii c1 in
  ((9 <=? n1) && (n1 <=? 13))%nat || (n1 =? 32)%nat.

Definition white2 (c1 c2 : ascii) : bool :=
  ((nat_of_ascii c1 =? 194) && (nat_of_ascii c2 =? 160))%nat.

Definition white3 (c1 c2 c3 : ascii) : bool :=
  let n1 := nat_of_ascii c1 in
  let n2 := nat_of_ascii c2 in
  let n3 := nat_of_ascii c3 in
  ((n1 =? 225) && (n2 =? 154) && (n3 =? 128)
   || (n1 =? 226) && (n2 =? 128)
      && ((128 <=? n3) && (n3 <=? 138) || (n3 =? 168) || (n3 =? 169) || (n3 =? 175))
   || (n1 =? 226) && (n2 =? 129) && (n3 =? 159)
   || (n1 =? 227) && (n2 =? 128) && (n3 =? 128)
   || (n1 =? 239) && (n2 =? 187) && (n3 =? 191))%nat.

(** The string of the given bytes. *)
Definition bytes (l : list nat) : string :=
  foldr (fun n s => String (ascii_of_nat n) s) EmptyString l.


(** Number of maximal runs of characters that are not white space:
    [str.trim().split(/\s+/).filter(w => w.length > 0).length]. A byte
    that starts no white-space character belongs to a word. *)
Fixpoint count_runs (in_word : bool) (s : string) : Z :=
  match s with
  | EmptyString => 0
  | String c1 s1 =>
      if white1 c1 then count_runs false s1
      else
        match s1 with
        | EmptyString => (if in_word then 0 else 1) + count_runs true s1
        | String c2 s2 =>
            if white2 c1 c2 then count_runs false s2
            else
              match s2 with
              | EmptyString => (if in_word then 0 else 1) + count_runs true s1
              | String c3 s3 =>
                  if white3 c1 c2 c3 then count_runs false s3
                  else (if in_word then 0 else 1) + count_runs true s1
              end
        end
  end.

(** [arr.sort(cmp)]. The sort is stable; for a comparator that is a
    total preorder on the elements sorted (here always the difference of
    two integer keys: z-indices, or the weights of paragraphs) the stable
    sorted arrangement is unique, so the insertion sort below returns
    exactly the array every conforming engine returns. *)
Fixpoint sort_insert {A} (cmp : A -> A -> Z) (x : A) (l : list A) : list A :=
  match l with
  | [] => [x]
  | y :: l' => if cmp x y <=? 0 then x :: y :: l' else y :: sort_insert cmp x l'
  end.

Definition sort {A} (cmp : A -> A -> Z) (l : list A) : list A :=
  foldr (sort_insert cmp) [] l.

(** [arr[i]] on an array of nullable slots; out of range is [undefined],
    which every reader below treats like [null]. *)
Definition slot {A} (arr : list (option A)) (i : nat) : option A :=
  default None (arr !! i).

End JS.

Import JS.

(* ===================================================================== *)
(** ** Content fitting engine *)
(* ===================================================================== *)

Module Fitting.

(** A content block as produced by the generator; optional fields that
    are absent are [None]. *)
Record Block : Type := mkBlock {
  type : string;
  text : option string;
  term : option string;
  definition : option string;
  value : option string;
  label : option string;
}.

#[export] Instance Block_eq_dec : EqDecision Block.
Proof. solve_decision. Defined.

(** [block.text || ""]: an absent or empty text is the empty string. *)
Definition text_or_empty (b : Block) : string :=
  match text b with Some s => s | None => "" end.

Definition countWords (val : string) : Z :=
  if String.eqb val "" then 0 else count_runs false val.

(** The [weights] table built inside [getBlockWeight]. *)
Definition weights (block : Block) : gmap string Z :=
  list_to_map
    [ ("h2", 100);
      ("h3", 70);
      ("p", Qceiling (inject_Z (countWords (text_or_empty block)) * 0.8 + 30));
      ("image_prompt", 320);
      ("stat", 200);
      ("key_term", 180);
      ("case_study", 280);
      ("table", 250);
      ("takeaway", 100);
      ("quote", 120) ].

(** Visual weight of a block; [None] is the [null] the trimmer writes
    into a slot. [weights[block.type] || 80] gives 80 for a type the table
    does not know, unless the type names an inherited member: that member
    is truthy and is what the function returns. *)
Definition getBlockWeight (block : option Block) : amount :=
  match block with
  | None => Units 0
  | Some b =>
      match weights b !! type b with
      | Some w => if w =? 0 then Units 80 else Units w
      | None => if inherited (type b) then NotANumber else Units 80
      end
  end.

(** The synthetic page pushed by the padding loop. *)
Definition placeholderContent : list Block :=
  [ mkBlock "h2" (Some "Additional Analysis") None None None None;
    mkBlock "p" (Some "This section provides further analysis and insights that complement the main content presented in this document. The additional material helps to provide a more comprehensive understanding of the topic.") None None None None;
    mkBlock "p" (Some "Further research and investigation could explore additional aspects of this subject matter, including case studies, comparative analyses, and practical applications.") None None None None;
    mkBlock "key_term" None (Some "Research Implications")
      (Some "The broader impact and significance of the findings for future studies and practical applications in this field.") None None ].

(** State of the greedy loop of [paginateContent]. *)
Record PagState : Type := mkPag {
  pages : list (list Block);
  currentPage : list Block;
  currentWeight : amount;
}.

Definition paginate_step (contentPages : Z) (PAGE_CAPACITY : num)
    (st : PagState) (block : Block) : PagState :=
  let weight := getBlockWeight (Some block) in
  if amount_gt (plus (currentWeight st) weight) PAGE_CAPACITY
     && (Z.of_nat (length (pages st)) <? contentPages - 1)
  then mkPag (pages st ++ [currentPage st]) [block] weight
  else mkPag (pages st) (currentPage st ++ [block]) (plus (currentWeight st) weight).

(** [while (pages.length < contentPages) pages.push(placeholderContent)].
    Each iteration lengthens [pages] by one, so the loop body runs at
    most [contentPages] times; [fuel] bounds the iterations. *)
Fixpoint pad_loop (fuel : nat) (contentPages : Z) (pages : list (list Block))
    : list (list Block) :=
  match fuel with
  | O => pages
  | S fuel' =>
      if Z.of_nat (length pages) <? contentPages
      then pad_loop fuel' contentPages (pages ++ [placeholderContent])
      else pages
  end.

Definition pad (contentPages : Z) (pages : list (list Block)) : list (list Block) :=
  pad_loop (Z.to_nat contentPages) contentPages pages.

(** The greedy loop followed by "add remaining content". *)
Definition greedyPages (bs : list Block) (contentPages : Z) (scale : Q)
    : list (list Block) :=
  let BASE_CAPACITY := 850%Q in
  let PAGE_CAPACITY := JS.div BASE_CAPACITY scale in
  let st := fold_left (paginate_step contentPages PAGE_CAPACITY) bs
              (mkPag [] [] (Units 0)) in
  if (0 <? length (currentPage st))%nat
  then pages st ++ [currentPage st] else pages st.

(** [blocks] is [None] when the argument is missing. *)
Definition paginateContent (blocks : option (list Block)) (contentPages : Z)
    (scale : Q) : Exn (list (list Block)) :=
  match blocks with
  | None | Some [] => Array_fill contentPages []
  | Some bs =>
      Ok (slice0 (pad contentPages (greedyPages bs contentPages scale))
                 contentPages)
  end.

(** *** The fit pass *)

Record Metrics : Type := mkMetrics {
  totalWeight : amount;
  capacity : Z;
  utilization : num;   (* the ratio; its rendering as a percentage string is not modelled *)
  blockCount : nat;
}.

Record FitResult : Type := mkFit {
  blocks : list Block;
  scale : Q;
  metrics : option Metrics;   (* [None] is the empty object [{}] *)
}.

(** [blocks.reduce((sum, b) => sum + getBlockWeight(b), 0)] *)
Definition sumWeights (bs : list (option Block)) : amount :=
  fold_left (fun sum b => plus sum (getBlockWeight b)) bs (Units 0).

(** The working array of the trimmer, whose removed slots are [null],
    and the running weight. *)
Record TrimState : Type := mkTrim {
  slots : list (option Block);
  weightNow : amount;
}.

(** [currentWeight <= TOTAL_CAPACITY * 1.05] *)
Definition within105 (TOTAL_CAPACITY : Z) (st : TrimState) : bool :=
  amount_le (weightNow st) (Fin (inject_Z TOTAL_CAPACITY * 1.05)).

(** [currentWeight > TOTAL_CAPACITY * 1.1] *)
Definition over110 (TOTAL_CAPACITY : Z) (currentWeight : amount) : bool :=
  amount_gt currentWeight (Fin (inject_Z TOTAL_CAPACITY * 1.1)).

(** [blocks[i]?.type === type] *)
Definition slot_has_type (o : option Block) (ty : string) : bool :=
  match o with
  | Some b => String.eqb (type b) ty
  | None => false
  end.

Definition removalPriority : list string :=
  ["quote"; "takeaway"; "stat"; "key_term"; "image_prompt"].

(** [for (let i = blocks.length - 1; i >= 0; i--)]: the argument [n] is
    [i + 1], so the slot visited is [n - 1]. *)
Fixpoint scan_down (TOTAL_CAPACITY : Z) (ty : string) (n : nat) (st : TrimState)
    : TrimState :=
  match n with
  | O => st
  | S i =>
      if slot_has_type (slot (slots st) i) ty then
        let st' := mkTrim (<[i := None]> (slots st))
                          (minus (weightNow st) (getBlockWeight (slot (slots st) i))) in
        if within105 TOTAL_CAPACITY st' then st'
        else scan_down TOTAL_CAPACITY ty i st'
      else scan_down TOTAL_CAPACITY ty i st
  end.

(** [for (const type of removalPriority)] *)
Fixpoint priority_loop (TOTAL_CAPACITY : Z) (types : list string) (st : TrimState)
    : TrimState :=
  match types with
  | [] => st
  | ty :: rest =>
      if within105 TOTAL_CAPACITY st then st
      else priority_loop TOTAL_CAPACITY rest
             (scan_down TOTAL_CAPACITY ty (length (slots st)) st)
  end.

(** [blocks.map((b, i) => ({ b, i })).filter(x => x.b && x.b.type === 'p')
      .sort((a, b) => getBlockWeight(b.b) - getBlockWeight(a.b))] *)
Definition paragraphs (arr : list (option Block)) : list (option Block * nat) :=
  sort (fun a b =>
          comparator_result (minus (getBlockWeight (fst b)) (getBlockWeight (fst a))))
    (filter (fun x => slot_has_type (fst x) "p" = true)
       (imap (fun i b => (b, i)) arr)).

(** [for (const p of paragraphs)] *)
Fixpoint paragraph_loop (TOTAL_CAPACITY : Z) (ps : list (option Block * nat))
    (st : TrimState) : TrimState :=
  match ps with
  | [] => st
  | p :: rest =>
      if within105 TOTAL_CAPACITY st then st
      else paragraph_loop TOTAL_CAPACITY rest
             (mkTrim (<[snd p := None]> (slots st))
                     (minus (weightNow st) (getBlockWeight (fst p))))
  end.

(** [blocks.filter(b => b !== null)] *)
Definition nonNull (arr : list (option Block)) : list Block := omap id arr.

(** Phase 1 of [optimizeContentToFit], entered when the guard holds. *)
Definition trim (TOTAL_CAPACITY : Z) (st : TrimState) : list Block :=
  let st1 := priority_loop TOTAL_CAPACITY removalPriority st in
  let st2 :=
    if negb (within105 TOTAL_CAPACITY st1)
    then paragraph_loop TOTAL_CAPACITY (paragraphs (slots st1)) st1
    else st1 in
  nonNull (slots st2).

(** The running weight agrees with the working array. *)
Definition consistent (st : TrimState) : Prop :=
  weightNow st = sumWeights (slots st).

(** Phase 2: the scale chosen from the utilization ratio. *)
Definition chooseScale (utilizationRatio : num) : Q :=
  if JS.gt utilizationRatio (Fin 1) then 0.88
  else if JS.lt utilizationRatio (Fin 0.7) then 1.12
  else 1.

(** [allBlocks] is [None] when the argument is missing. *)
Definition optimizeContentToFit (allBlocks : option (list Block)) (contentPages : Z)
    : FitResult :=
  match allBlocks with
  | None | Some [] => mkFit [] 1 None
  | Some bs =>
      let PAGE_CAPACITY := 850 in
      let TOTAL_CAPACITY := contentPages * PAGE_CAPACITY in
      let blocks0 := Some <$> bs in
      let currentWeight0 := sumWeights blocks0 in
      let blocks1 :=
        if over110 TOTAL_CAPACITY currentWeight0
        then trim TOTAL_CAPACITY (mkTrim blocks0 currentWeight0)
        else bs in
      let currentWeight := sumWeights (Some <$> blocks1) in
      let utilizationRatio := amount_div currentWeight TOTAL_CAPACITY in
      mkFit blocks1 (chooseScale utilizationRatio)
        (Some (mkMetrics currentWeight TOTAL_CAPACITY utilizationRatio
                 (length blocks1)))
  end.

End Fitting.

(* ===================================================================== *)
(** ** The document schema ([pdf/schema.ts]) *)
(* ===================================================================== *)

Module Schema.

(** Payloads the renderer hands to the backend without inspecting them. *)
Definition unknown : Type := string.

Record BoxLayout : Type := mkLayout {
  position : option string;
  layout_x : option Q;
  layout_y : option Q;
  layout_width : option Q;
  layout_height : option Q;
  zIndex : option Z;
  backgroundColor : option string;
}.

Record PDFTextFont : Type := mkFont {
  family : string;
  weight : option string;
}.

Record TextStroke : Type := mkStroke {
  stroke_width : option Q;
  stroke_color : option string;
}.

Record ParagraphStyle : Type := mkParagraph {
  align : option string;
}.

Record PDFTextStyle : Type := mkStyle {
  font : PDFTextFont;
  fontSize : Q;
  color : option string;
  opacity : option Q;
  leading : option Q;
  tracking : option Q;
  kerning : option Q;
  gradientFill : option unknown;
  stroke : option TextStroke;
  paragraph : option ParagraphStyle;
  decorations : option unknown;
}.

Record PDFTextElementData : Type := mkTextData {
  text_text : string;
  style : PDFTextStyle;
}.

Record PDFImageElementData : Type := mkImageData {
  src : string;
  image_opacity : option Q;
  blendMode : option string;
  objectFit : option string;
  shadow : option unknown;
  borderRadius : option unknown;
}.

Record PDFVectorShapeElementData : Type := mkShapeData {
  shapeType : string;
  shape_stroke : option unknown;
  shape_fill : option unknown;
  pathData : option string;
  points : option (list (Q * Q));
  rx : option Q;
  ry : option Q;
}.

(** The four element variants; only a box owns children. *)
Inductive PDFElement : Type :=
| Box (id : string) (layout : BoxLayout) (children : option (list PDFElement))
| Text (id : string) (layout : BoxLayout) (text : PDFTextElementData)
| Image (id : string) (layout : BoxLayout) (image : PDFImageElementData)
| Shape (id : string) (layout : BoxLayout) (shape : PDFVectorShapeElementData).

Definition layout_of (e : PDFElement) : BoxLayout :=
  match e with
  | Box _ l _ | Text _ l _ | Image _ l _ | Shape _ l _ => l
  end.

Definition id_of (e : PDFElement) : string :=
  match e with
  | Box i _ _ | Text i _ _ | Image i _ _ | Shape i _ _ => i
  end.

Record PDFPageSize : Type := mkPageSize {
  preset : option string;
  size_width : option Q;
  size_height : option Q;
}.

Record PDFPage : Type := mkPage {
  page_id : string;
  size : PDFPageSize;
  page_backgroundColor : option string;
  backgroundImage : option unknown;
  elements : list PDFElement;
}.

Record PDFMetadata : Type := mkMetadata {
  meta_title : option string;
  author : option string;
  subject : option string;
  creator : option string;
  keywords : option (list string);
}.

Record PDFColorProfile : Type := mkColorProfile {
  space : string;
}.

Record PDFRenderOptions : Type := mkRenderOptions {
  defaultDpi : Q;
  compression : string;
  embedFonts : bool;
}.

Record PDFDocument : Type := mkDocument {
  doc_id : string;
  version : string;
  doc_pages : list PDFPage;
  metadata : option PDFMetadata;
  colorProfile : option PDFColorProfile;
  renderOptions : option PDFRenderOptions;
}.

End Schema.

(* ===================================================================== *)
(** ** Page-size resolver and renderer *)
(* ===================================================================== *)

Module Renderer.
Import Schema.

Record Rect : Type := mkRect {
  x : Q;
  y : Q;
  width : Q;
  height : Q;
}.

(** The calls of the [PdfContext] interface, as a recording backend
    receives them. *)
Inductive Call : Type :=
| beginDocument (metadata : option PDFMetadata)
    (colorProfile : option PDFColorProfile) (dpi : Q)
| endDocument
| beginPage (width height : option Q)   (* [None] is [undefined] *)
| endPage
| saveState
| restoreState
| drawRect (x y : Q) (width height : option Q) (fillColor : option string)
| drawBackgroundImage (x y : Q) (width height : option Q) (bg : unknown)
| setFont (font : PDFTextFont)
| setFontSize (size : Q)
| setFillColor (color : string)
| setOpacity (value : Q)
| setTextGradient (gradient : unknown) (frame : Rect)
| setTextStroke (width : Q) (color : string)
| drawText (text : string) (frame : Rect) (align : string)
    (leading tracking kerning : option Q)
    (paragraph : option ParagraphStyle) (decorations : option unknown)
| setBlendMode (mode : string)
| computeObjectFit (frame : Rect) (objectFit : string)
| drawShadow (frame : Rect) (shadow : unknown)
| drawImage (src : string) (frame : Rect) (borderRadius : option unknown)
| setShapeStroke (stroke : option unknown)
| setShapeFill (fill : option unknown)
| drawShape (frame : Rect) (type : string) (pathData : option string)
    (points : option (list (Q * Q))) (rx ry : option Q).

Record LayoutContext : Type := mkLayoutContext {
  dpi : Q;
}.

Definition computeFrame (ctx : LayoutContext) (layout : BoxLayout) : Rect :=
  mkRect (default 0%Q (layout_x layout)) (default 0%Q (layout_y layout))
         (default 0%Q (layout_width layout)) (default 0%Q (layout_height layout)).

Definition createChildContext (ctx : LayoutContext) (frame : Rect)
    (_layout : BoxLayout) : LayoutContext :=
  mkLayoutContext (dpi ctx).

Record PresetDims : Type := mkDims {
  wPt : Q;
  hPt : Q;
}.

Definition presetMap : gmap string PresetDims :=
  list_to_map
    [ ("A4", mkDims 595.28 841.89);
      ("Letter", mkDims 612 792);
      ("Legal", mkDims 612 1008) ].

(** What [base] is bound to: a pair of dimensions, or the inherited
    member that [presetMap[size.preset]] finds under a name such as
    [constructor], a function or object with neither [wPt] nor [hPt]. *)
Inductive PresetBase : Type :=
| Dims (d : PresetDims)
| InheritedMember.

(** The result is the pair [(width, height)]; [None] is [undefined]. *)
Definition resolvePageSize (size : PDFPageSize) (_dpi : Q) : option Q * option Q :=
  let explicit :=
    Dims (mkDims (default 595.28%Q (size_width size))
                 (default 841.89%Q (size_height size))) in
  let base :=
    match preset size with
    | Some p =>
        if String.eqb p "" then explicit
        else match presetMap !! p with
             | Some d => Dims d
             | None => if inherited p then InheritedMember else explicit
             end
    | None => explicit
    end in
  match base with
  | Dims d => (Some (wPt d), Some (hPt d))
  | InheritedMember => (None, None)
  end.

(** The comparator of both sorts:
    [(a, b) => (a.layout.zIndex ?? 0) - (b.layout.zIndex ?? 0)]. *)
Definition zOf (e : PDFElement) : Z := default 0 (zIndex (layout_of e)).

Definition zcmp (a b : PDFElement) : Z := zOf a - zOf b.

Section WithEngine.

(** The frame the backend answers to [computeObjectFit]. *)
Variable objectFitOf : Rect -> string -> Rect.

Definition renderTextElement (el : PDFTextElementData) (frame : Rect) : list Call :=
  let st := style el in
  [ setFont (font st);
    setFontSize (fontSize st);
    setFillColor (default "#000000" (color st));
    setOpacity (default 1%Q (opacity st)) ]
  ++ match gradientFill st with
     | Some g => [setTextGradient g frame]
     | None => []
     end
  ++ match stroke st with
     | Some sk => [setTextStroke (default 0%Q (stroke_width sk))
                                 (default "#000000" (stroke_color sk))]
     | None => []
     end
  ++ [ drawText (text_text el) frame
         (default "left" (paragraph st ≫= align))
         (leading st) (tracking st) (kerning st)
         (paragraph st) (decorations st) ].

Definition renderImageElement (img : PDFImageElementData) (frame : Rect) : list Call :=
  let fit := default "cover" (objectFit img) in
  let fitted := objectFitOf frame fit in
  [ setOpacity (default 1%Q (image_opacity img));
    setBlendMode (default "normal" (blendMode img));
    computeObjectFit frame fit ]
  ++ match shadow img with
     | Some sh => [drawShadow fitted sh]
     | None => []
     end
  ++ [ drawImage (src img) fitted (borderRadius img) ].

Definition renderShapeElement (shape : PDFVectorShapeElementData) (frame : Rect)
    : list Call :=
  [ setShapeStroke (shape_stroke shape);
    setShapeFill (shape_fill shape);
    drawShape frame (shapeType shape) (pathData shape) (points shape)
      (rx shape) (ry shape) ].

(** [renderElement], with [renderBoxElement] inlined. The children are
    paired with their own rendering before the pairs are sorted by the
    children's z-index, which keeps the recursion structural;
    [renderElement_Box] below states the equation in the source's
    order, sort first and render each child next. *)
Fixpoint renderElement (element : PDFElement) (ctx : LayoutContext) : list Call :=
  let frame := computeFrame ctx (layout_of element) in
  [saveState]
  ++ match element with
     | Box _ layout children =>
         match children with
         | None | Some [] => []
         | Some cs =>
             let childCtx := createChildContext ctx frame layout in
             let sorted :=
               sort (fun a b => zcmp (fst a) (fst b))
                 (map (fun c => (c, renderElement c childCtx)) cs) in
             flat_map snd sorted
         end
     | Text _ _ el => renderTextElement el frame
     | Image _ _ img => renderImageElement img frame
     | Shape _ _ sh => renderShapeElement sh frame
     end
  ++ [restoreState].

(** The elements of a page or of a box, in the order the loop
    [for (const el of elements)] visits them. *)
Definition drawOrder (els : list PDFElement) : list PDFElement := sort zcmp els.

Definition truthy (s : option string) : bool :=
  match s with
  | Some v => negb (String.eqb v "")
  | None => false
  end.

(** The full-page background drawn before any element. *)
Definition pageBackground (page : PDFPage) (width height : option Q) : list Call :=
  if truthy (page_backgroundColor page) || bool_decide (is_Some (backgroundImage page))
  then drawRect 0 0 width height (page_backgroundColor page)
       :: match backgroundImage page with
          | Some bg => [drawBackgroundImage 0 0 width height bg]
          | None => []
          end
  else [].

(** One iteration of [for (const page of doc.pages)]. *)
Definition renderPage (targetDpi : Q) (page : PDFPage) : list Call :=
  let '(width, height) := resolvePageSize (size page) targetDpi in
  let layoutCtx := mkLayoutContext targetDpi in
  [beginPage width height]
  ++ pageBackground page width height
  ++ flat_map (fun el => renderElement el layoutCtx) (drawOrder (elements page))
  ++ [endPage].

(** The calls the engine receives, in order. *)
Definition renderPDFDocument (doc : PDFDocument) (targetDpi : Q) : list Call :=
  [beginDocument (metadata doc) (colorProfile doc) targetDpi]
  ++ flat_map (renderPage targetDpi) (doc_pages doc)
  ++ [endDocument].

End WithEngine.

End Renderer.

(* ===================================================================== *)
(** ** Textora adapter ([pdf/textoraAdapter.ts]) *)
(* ===================================================================== *)

Module Adapter.
Import Schema Fitting.

Record TextoraPage : Type := mkTextoraPage {
  title : option string;
  content : option (list (option Block));   (* an entry may be [null] *)
}.

Record TextoraDoc : Type := mkTextoraDoc {
  doc_title : option string;
  subtitle : option string;
  pages : option (list TextoraPage);
}.

Record TextoraSettings : Type := mkSettings {
  settings_pages : option Z;
  settings_type : option string;
  audience : option string;
}.

Definition A4_SIZE : PDFPageSize := mkPageSize (Some "A4") None None.

Definition baseHeadingStyle (size : Q) : PDFTextStyle :=
  mkStyle (mkFont "Inter" (Some "bold")) size (Some "#111827") None
          (Some (size * 1.2)%Q) None None None None None None.

Definition baseBodyStyle (size : Q) : PDFTextStyle :=
  mkStyle (mkFont "Inter" (Some "normal")) size (Some "#1f2933") None
          (Some (size * 1.5)%Q) None None None None None None.

Definition absolute (x y w h : Q) (bg : option string) : BoxLayout :=
  mkLayout (Some "absolute") (Some x) (Some y) (Some w) (Some h) None bg.

(** [String(v ?? '')] *)
Definition str (v : option string) : string := default "" v.

Definition nonempty (s : option string) : bool :=
  match s with
  | Some v => negb (String.eqb v "")
  | None => false
  end.

Definition lineHeight : Z := 20.

(** What the [forEach] callback over [page.content] has built so far. *)
Record Walk : Type := mkWalk {
  walk_elements : list PDFElement;
  cursorY : Z;
}.

(** The callback [(block, blockIndex) => { ... }] for page [pageIndex]. *)
Definition visitBlock (pageIndex : nat) (w : Walk) (blockIndex : nat)
    (block : option Block) : Walk :=
  match block with
  | None => w
  | Some block =>
      let idBase := "p" +:+ pretty (pageIndex + 1)%nat +:+ "-b" +:+ pretty blockIndex in
      let cy := inject_Z (cursorY w) in
      if String.eqb (type block) "h2" then
        let el := Text (idBase +:+ "-h2") (absolute 72 cy 450 30 None)
                    (mkTextData (str (text block)) (baseHeadingStyle 18)) in
        mkWalk (walk_elements w ++ [el]) (cursorY w + lineHeight * 2)
      else if String.eqb (type block) "p" then
        let el := Text (idBase +:+ "-p") (absolute 72 cy 450 60 None)
                    (mkTextData (str (text block)) (baseBodyStyle 12)) in
        mkWalk (walk_elements w ++ [el]) (cursorY w + lineHeight * 3)
      else if String.eqb (type block) "stat" then
        let box :=
          Box (idBase +:+ "-stat-box") (absolute 72 cy 200 80 (Some "#f1f5f9"))
            (Some
               [ Text (idBase +:+ "-stat-value") (absolute 82 (cy + 12) 180 30 None)
                   (mkTextData (str (value block)) (baseHeadingStyle 20));
                 Text (idBase +:+ "-stat-label") (absolute 82 (cy + 42) 180 20 None)
                   (mkTextData (str (label block)) (baseBodyStyle 10)) ]) in
        mkWalk (walk_elements w ++ [box]) (cursorY w + 100)
      else w
  end.

(** [forEach] passes the index along with the element. *)
Fixpoint forEach_from {A St} (f : St -> nat -> A -> St) (i : nat) (l : list A)
    (s : St) : St :=
  match l with
  | [] => s
  | a :: l' => forEach_from f (S i) l' (f s i a)
  end.

Definition titleElements (pageIndex : nat) (page : TextoraPage) : list PDFElement :=
  if nonempty (title page) then
    [ Text ("page-" +:+ pretty (pageIndex + 1)%nat +:+ "-title")
        (absolute 72 72 450 40 None)
        (mkTextData (str (title page)) (baseHeadingStyle 24)) ]
  else [].

(** The walk over the content blocks of one page. *)
Definition walkContent (pageIndex : nat) (page : TextoraPage) : Walk :=
  forEach_from (visitBlock pageIndex) 0 (default [] (content page))
    (mkWalk (titleElements pageIndex page) 130).

Definition contentPage (pageIndex : nat) (page : TextoraPage) : PDFPage :=
  mkPage ("page-" +:+ pretty (pageIndex + 1)%nat) A4_SIZE (Some "#ffffff") None
         (walk_elements (walkContent pageIndex page)).

Definition coverPage (source : TextoraDoc) : PDFPage :=
  let titleText :=
    if nonempty (doc_title source) then
      [ Text "cover-title" (absolute 72 200 400 80 None)
          (mkTextData (str (doc_title source)) (baseHeadingStyle 32)) ]
    else [] in
  let subtitleText :=
    if nonempty (subtitle source) then
      [ Text "cover-subtitle" (absolute 72 280 420 60 None)
          (mkTextData (str (subtitle source)) (baseBodyStyle 16)) ]
    else [] in
  mkPage "page-cover" A4_SIZE (Some "#ffffff") None (titleText ++ subtitleText).

Definition buildPdfDocumentFromTextora (source : TextoraDoc)
    (settings : TextoraSettings) (_isLandscape : bool) : PDFDocument :=
  mkDocument "textora-doc" "1.0.0"
    (coverPage source :: imap contentPage (default [] (pages source)))
    (Some (mkMetadata (doc_title source) (audience settings) (settings_type settings)
             (Some "GoodPDF Pro") (Some ["GoodPDF"; "Textora"; "Auto-generated"])))
    (Some (mkColorProfile "rgb"))
    (Some (mkRenderOptions 300 "max" true)).

End Adapter.

Import Fitting.

(* ===================================================================== *)
(** ** Page budget ([calculatePageBudget]) *)
(* ===================================================================== *)

Module Budget.

Record PageBudget : Type := mkBudget {
  targetPages : Z;
  contentPages : Z;
  tocPages : Z;
  hasTOC : bool;
  sectionCount : Z;
  totalWordBudget : Z;
  wordsPerSection : Z;
  wordsPerPage : Z;
}.

Definition calculatePageBudget (targetPages : Z) : PageBudget :=
  let hasTOC := 5 <=? targetPages in
  let tocPages := if hasTOC then 1 else 0 in
  let reservedPages := 1 + tocPages in
  let contentPages := Z.max 1 (targetPages - reservedPages) in
  let WORDS_PER_PAGE := 280 in
  let totalWordBudget := contentPages * WORDS_PER_PAGE in
  let sectionCount0 := Z.max 2 (Qfloor (inject_Z contentPages * 1.2)) in
  let sectionCount := Z.min sectionCount0 15 in
  let wordsPerSection := Qfloor (inject_Z totalWordBudget / inject_Z sectionCount) in
  mkBudget targetPages contentPages tocPages hasTOC sectionCount totalWordBudget
           wordsPerSection WORDS_PER_PAGE.

End Budget.

(* ===================================================================== *)
(** ** The generator's use of the fit engine *)
(* ===================================================================== *)

Module Generator.

(** The two calls that close the writing step:
    [optimizeContentToFit(allBlocks, contentPages)] followed by
    [paginateContent(optimizedBlocks, contentPages, scale)], where
    [contentPages] is the budget's, computed from the configured number of
    pages. *)
Definition fitAndPaginate (allBlocks : list Fitting.Block) (configPages : Z)
    : Exn (list (list Fitting.Block)) :=
  let contentPages := Budget.contentPages (Budget.calculatePageBudget configPages) in
  let fit := Fitting.optimizeContentToFit (Some allBlocks) contentPages in
  Fitting.paginateContent (Some (Fitting.blocks fit)) contentPages (Fitting.scale fit).

(** The font size, in points, that [DesignInjector] derives from the scale:
    [Math.max(9, Math.min(13, baseSize * scale))] with [baseSize = 11]. *)
Definition scaledSize (scale : Q) : Q :=
  let baseSize := 11%Q in
  Qmax 9 (Qmin 13 (baseSize * scale)).

(** The line spacing: [Math.max(1.1, Math.min(2.0, baseSpacing * scale))]
    with [baseSpacing = 1.5]. *)
Definition scaledSpacing (scale : Q) : Q :=
  let baseSpacing := 1.5%Q in
  Qmax 1.1 (Qmin 2.0 (baseSpacing * scale)).

End Generator.

(* ===================================================================== *)
(** ** Editing operations on the paginated document *)
(* ===================================================================== *)

(** The handlers of the editor compute a new [pageData] from the current
    one and hand it to [setPageData]; each is embedded as the function from
    the current state to what it does with the state. A page is an array
    whose entries may be [undefined] ([None]). *)
Module Editing.

Definition Page : Type := list (option Fitting.Block).

Definition PageData : Type := list Page.

Inductive Outcome : Type :=
| Updated (newPageData : PageData)   (* [setPageData(newPageData)] *)
| NoUpdate                           (* the state is left alone *)
| TypeError.                         (* the handler throws *)

(** [arr[i]] *)
Definition array_get {A} (arr : list (option A)) (i : Z) : option A :=
  if i <? 0 then None else default None (arr !! Z.to_nat i).

(** [arr[i] = v]: an index past the end lengthens the array, the entries in
    between reading [undefined]; a negative index names a property and
    leaves the elements alone. *)
Definition array_set {A} (arr : list (option A)) (i : Z) (v : option A)
    : list (option A) :=
  if i <? 0 then arr
  else if i <? Z.of_nat (length arr) then <[Z.to_nat i := v]> arr
  else arr ++ replicate (Z.to_nat i - length arr) None ++ [v].

(** [pageData[pageIndex]], [None] when it is [undefined]. *)
Definition page_at (pageData : PageData) (pageIndex : Z) : option Page :=
  if pageIndex <? 0 then None else pageData !! Z.to_nat pageIndex.

(** [arr.filter((_, index) => index !== i)], the entries numbered from [n]. *)
Fixpoint filter_index_from {A} (n : nat) (i : Z) (arr : list A) : list A :=
  match arr with
  | [] => []
  | x :: arr' =>
      if Z.of_nat n =? i then filter_index_from (S n) i arr'
      else x :: filter_index_from (S n) i arr'
  end.

Definition filter_index {A} (i : Z) (arr : list A) : list A :=
  filter_index_from 0 i arr.


Definition handleMoveBlock (pageData : PageData) (pageIndex blockIndex : Z)
    (direction : string) : Outcome :=
  match page_at pageData pageIndex with
  | None => TypeError
  | Some currentPage =>
      let targetIndex :=
        if String.eqb direction "up" then blockIndex - 1 else blockIndex + 1 in
      if (0 <=? targetIndex) && (targetIndex <? Z.of_nat (length currentPage)) then
        let atTarget := array_get currentPage targetIndex in
        let atBlock := array_get currentPage blockIndex in
        let swapped :=
          array_set (array_set currentPage blockIndex atTarget) targetIndex atBlock in
        Updated (<[Z.to_nat pageIndex := swapped]> pageData)
      else NoUpdate
  end.

(** The [onConfirm] of the dialog [handleDeleteBlock] opens. *)
Definition confirmDeleteBlock (pageData : PageData) (pageIndex blockIndex : Z)
    : Outcome :=
  match page_at pageData pageIndex with
  | None => TypeError
  | Some page =>
      Updated (<[Z.to_nat pageIndex := filter_index blockIndex page]> pageData)
  end.




End Editing.

(* ===================================================================== *)
(** ** Notions used to state further properties of the fit engine *)
(* ===================================================================== *)

Module FitFacts.

(** A block the trimmer may remove: one of the five listed types, or a
    paragraph. *)
Definition trimmable (b : Fitting.Block) : Prop :=
  Fitting.type b ∈ Fitting.removalPriority \/ Fitting.type b = "p".

#[export] Instance trimmable_dec b : Decision (trimmable b).
Proof. unfold trimmable. apply _. Defined.

(** The rest of a string after the white-space character it starts with,
    if it starts with one: the test [count_runs] makes at each byte. *)
Definition white_prefix (s : string) : option string :=
  match s with
  | EmptyString => None
  | String c1 s1 =>
      if white1 c1 then Some s1
      else
        match s1 with
        | EmptyString => None
        | String c2 s2 =>
            if white2 c1 c2 then Some s2
            else
              match s2 with
              | EmptyString => None
              | String c3 s3 => if white3 c1 c2 c3 then Some s3 else None
              end
        end
  end.

(** Total weight of a page group. *)
Definition pageWeight (g : list Fitting.Block) : amount :=
  foldr (fun b acc => plus (Fitting.getBlockWeight (Some b)) acc) (Units 0) g.

(** The weight of a page group is a number, and the group respects the
    capacity or holds at most one block. *)
Definition fits_or_single (PAGE_CAPACITY : num) (g : list Fitting.Block) : Prop :=
  exists n, pageWeight g = Units n /\
            (JS.gt (ofZ n) PAGE_CAPACITY = false \/ (length g <= 1)%nat).

(** What the greedy loop keeps true: the running weight is the weight of
    the open page; every closed page fits or is a single block; and as long
    as another page may still be closed the open page, when its weight is
    a number, fits or is a single block. *)
Definition greedy_inv (contentPages : Z) (cap : num) (st : Fitting.PagState) : Prop :=
  Fitting.currentWeight st = pageWeight (Fitting.currentPage st) /\
  Forall (fits_or_single cap) (Fitting.pages st) /\
  (Z.of_nat (length (Fitting.pages st)) < contentPages - 1 ->
   forall n, Fitting.currentWeight st = Units n ->
             JS.gt (ofZ n) cap = false \/ (length (Fitting.currentPage st) <= 1)%nat).

End FitFacts.

(* ===================================================================== *)
(** ** The fit pass as the specification words it *)
(* ===================================================================== *)

(** These definitions follow the prose of the specification, not the code;
    the theorems on the fit pass compare [optimizeContentToFit] with them. *)
Module FitSpec.

(** Total weight of a block sequence, each block weighing what
    [getBlockWeight] gives it. *)
Definition totalWeight (bs : list Block) : amount :=
  foldr (fun b acc => plus (getBlockWeight (Some b)) acc) (Units 0) bs.

(** Capacity: [contentPages] pages of 850 units. *)
Definition capacityOf (contentPages : Z) : Z := contentPages * 850.

(** Utilization: total weight divided by capacity. *)
Definition utilizationOf (bs : list Block) (contentPages : Z) : num :=
  amount_div (totalWeight bs) (capacityOf contentPages).

(** The scale rule: 0.88 above 1.0, 1.12 strictly below 0.7, 1.0 otherwise. *)
Definition scaleRule (u : num) : Q :=
  if JS.gt u (Fin 1) then 0.88 else if JS.lt u (Fin 0.7) then 1.12 else 1.

(** The weight is a number that exceeds capacity by more than 10%. *)
Definition exceedsBy10 (bs : list Block) (contentPages : Z) : Prop :=
  exists w, totalWeight bs = Units w /\
            (1.1 * inject_Z (capacityOf contentPages) < inject_Z w)%Q.

(** The weight is a number within 5% of capacity. *)
Definition within5 (bs : list Block) (contentPages : Z) : Prop :=
  exists w, totalWeight bs = Units w /\
            (inject_Z w <= 1.05 * inject_Z (capacityOf contentPages))%Q.

Definition priorityOrder : list string :=
  ["quote"; "takeaway"; "stat"; "key_term"; "image_prompt"].

(** One removal of the trimming procedure. While the weight is not within
    5% of capacity, the block removed is
    - the last block of the first type of [priorityOrder] that still
      occurs in the sequence, or,
    - once no block of a listed type is left, a paragraph of greatest
      weight. *)
Inductive removal (contentPages : Z) : list Block -> list Block -> Prop :=
| remove_by_priority pre b post earlier later :
    ~ within5 (pre ++ b :: post) contentPages ->
    priorityOrder = earlier ++ type b :: later ->
    (forall x, x ∈ pre ++ b :: post -> type x ∉ earlier) ->
    (forall x, x ∈ post -> type x <> type b) ->
    removal contentPages (pre ++ b :: post) (pre ++ post)
| remove_longest_paragraph pre b post :
    ~ within5 (pre ++ b :: post) contentPages ->
    (forall x, x ∈ pre ++ b :: post -> type x ∉ priorityOrder) ->
    type b = "p" ->
    (forall x, x ∈ pre ++ post -> type x = "p" ->
               no_more (getBlockWeight (Some x)) (getBlockWeight (Some b))) ->
    removal contentPages (pre ++ b :: post) (pre ++ post).

(** Nothing is left that trimming may remove. *)
Definition exhausted (bs : list Block) : Prop :=
  forall x, x ∈ bs -> (type x ∉ priorityOrder) /\ type x <> "p".

End FitSpec.

(* ===================================================================== *)
(** ** Draw order as the specification words it *)
(* ===================================================================== *)

Module RenderSpec.
Import Schema Renderer.

(** The z-index of an element, 0 when unset. *)
Definition zIndexOf (e : PDFElement) : Z := default 0 (zIndex (layout_of e)).

(** [drawn] lists the elements of [doc] by ascending z-index, and the
    elements of any one z-index in the order they have in [doc]. *)
Definition in_z_order (doc drawn : list PDFElement) : Prop :=
  StronglySorted (fun a b => zIndexOf a <= zIndexOf b) drawn /\
  forall z, filter (fun e => zIndexOf e = z) drawn = filter (fun e => zIndexOf e = z) doc.

(** [calls] draws the element: a leaf by its own routine between a save
    and a restore of the state, a box by dispatching its children one after
    the other in z-order, each drawn in the same way. *)
Inductive dispatched (fit : Rect -> string -> Rect) : PDFElement -> list Call -> Prop :=
| dispatched_box id layout children order drawings :
    in_z_order (default [] children) order ->
    Forall2 (dispatched fit) order drawings ->
    dispatched fit (Box id layout children)
      ([saveState] ++ concat drawings ++ [restoreState])
| dispatched_text id layout data ctx :
    dispatched fit (Text id layout data)
      ([saveState] ++ renderTextElement data (computeFrame ctx layout) ++ [restoreState])
| dispatched_image id layout img ctx :
    dispatched fit (Image id layout img)
      ([saveState] ++ renderImageElement fit img (computeFrame ctx layout)
       ++ [restoreState])
| dispatched_shape id layout sh ctx :
    dispatched fit (Shape id layout sh)
      ([saveState] ++ renderShapeElement sh (computeFrame ctx layout) ++ [restoreState]).

(** [calls] draws the page: the page is opened with its resolved size, the
    background comes first, then the elements are dispatched one after the
    other in z-order, then the page is closed. *)
Definition page_dispatched (fit : Rect -> string -> Rect) (dpi : Q)
    (page : PDFPage) (calls : list Call) : Prop :=
  exists order drawings,
    in_z_order (elements page) order /\
    Forall2 (dispatched fit) order drawings /\
    calls = [beginPage (fst (resolvePageSize (size page) dpi))
                       (snd (resolvePageSize (size page) dpi))]
            ++ pageBackground page (fst (resolvePageSize (size page) dpi))
                                   (snd (resolvePageSize (size page) dpi))
            ++ concat drawings ++ [endPage].

(** The texts of the [drawText] calls of a trace, in order. *)
Definition drawnTexts (calls : list Call) : list string :=
  omap (fun c => match c with
                 | drawText t _ _ _ _ _ _ _ => Some t
                 | _ => None
                 end) calls.

End RenderSpec.

(* ===================================================================== *)
(** ** Notions used to state further properties of the renderer *)
(* ===================================================================== *)

Module RenderFacts.
Import Schema Renderer.




(** The page sizes a trace announces, in order. *)
Definition announcedPages (calls : list Call) : list (option Q * option Q) :=
  omap (fun c => match c with
                 | beginPage w h => Some (w, h)
                 | _ => None
                 end) calls.

(** The strings of all text elements of a tree, in document order. *)
Fixpoint allTexts (e : PDFElement) : list string :=
  match e with
  | Box _ _ (Some children) => flat_map allTexts children
  | Box _ _ None => []
  | Text _ _ data => [text_text data]
  | Image _ _ _ | Shape _ _ _ => []
  end.

End RenderFacts.

(* ===================================================================== *)
(** ** The adapter's cursor as the specification words it *)
(* ===================================================================== *)

Module AdapterSpec.

(** The block types the adapter places on the page. *)
Definition recognized (ty : string) : bool :=
  bool_decide (ty = "h2" \/ ty = "p" \/ ty = "stat").

(** The cursor moves two line-heights after a heading, three after a
    paragraph, a fixed 100 units after a statistic, and not at all after
    any other block or a missing one. *)
Definition cursorAdvance (block : option Block) : Z :=
  match block with
  | None => 0
  | Some b =>
      if bool_decide (type b = "h2") then 2 * Adapter.lineHeight
      else if bool_decide (type b = "p") then 3 * Adapter.lineHeight
      else if bool_decide (type b = "stat") then 100
      else 0
  end.

Definition totalAdvance (content : list (option Block)) : Z :=
  foldr (fun b acc => cursorAdvance b + acc) 0 content.

(** A text element at the left margin with its upper edge at [y], showing
    [shown]. *)
Definition text_at (y : Z) (height : Q) (shown : string) (el : Schema.PDFElement) : Prop :=
  exists id style,
    el = Schema.Text id (Adapter.absolute 72 (inject_Z y) 450 height None)
           (Schema.mkTextData shown style).

(** A box with its upper edge at [y] that holds two texts, the value and
    below it the label. *)
Definition statistic_at (y : Z) (value label : string) (el : Schema.PDFElement) : Prop :=
  exists id idv idl stylev stylel,
    el = Schema.Box id (Adapter.absolute 72 (inject_Z y) 200 80 (Some "#f1f5f9"))
           (Some [ Schema.Text idv (Adapter.absolute 82 (inject_Z y + 12) 180 30 None)
                     (Schema.mkTextData value stylev);
                   Schema.Text idl (Adapter.absolute 82 (inject_Z y + 42) 180 20 None)
                     (Schema.mkTextData label stylel) ]).

(** The walk over the content blocks of a page: [walk y content placed y']
    says that with the cursor at [y] the blocks of [content], taken in
    order, place the elements [placed] and leave the cursor at [y']. A
    heading is placed at the cursor, which then moves two line-heights; a
    paragraph is placed at the cursor, which then moves three; a statistic
    is placed at the cursor, which then moves 100 units; any other block,
    and a missing one, places nothing and moves nothing. *)
Inductive walk : Z -> list (option Block) -> list Schema.PDFElement -> Z -> Prop :=
| walk_end y : walk y [] [] y
| walk_heading y b rest el placed y' :
    type b = "h2" ->
    text_at y 30 (default "" (text b)) el ->
    walk (y + 2 * Adapter.lineHeight) rest placed y' ->
    walk y (Some b :: rest) (el :: placed) y'
| walk_paragraph y b rest el placed y' :
    type b = "p" ->
    text_at y 60 (default "" (text b)) el ->
    walk (y + 3 * Adapter.lineHeight) rest placed y' ->
    walk y (Some b :: rest) (el :: placed) y'
| walk_statistic y b rest el placed y' :
    type b = "stat" ->
    statistic_at y (default "" (value b)) (default "" (label b)) el ->
    walk (y + 100) rest placed y' ->
    walk y (Some b :: rest) (el :: placed) y'
| walk_unrecognized y b rest placed y' :
    recognized (type b) = false ->
    walk y rest placed y' ->
    walk y (Some b :: rest) placed y'
| walk_missing y rest placed y' :
    walk y rest placed y' ->
    walk y (None :: rest) placed y'.

(** What the adapter makes of one external page: at most one heading
    element, 40 units high at 72, above the cursor's start at 130, then
    the elements the walk places. *)
Definition page_walked (page : Adapter.TextoraPage) (pdfPage : Schema.PDFPage) : Prop :=
  exists heading placed cursorEnd,
    Schema.elements pdfPage = heading ++ placed /\
    (length heading <= 1)%nat /\
    Forall (fun el => Schema.layout_of el = Adapter.absolute 72 72 450 40 None) heading /\
    walk 130 (default [] (Adapter.content page)) placed cursorEnd /\
    cursorEnd = 130 + totalAdvance (default [] (Adapter.content page)).

End AdapterSpec.

(* ===================================================================== *)
(** ** Notions used to state further properties of the adapter *)
(* ===================================================================== *)

Module AdapterFacts.
Import Schema.

(** Upper and lower edge of an element's frame; the y axis points down. *)
Definition top (e : PDFElement) : Q := default 0%Q (layout_y (layout_of e)).

Definition bottom (e : PDFElement) : Q :=
  (top e + default 0%Q (layout_height (layout_of e)))%Q.

(** The strings a content block brings to the page. *)
Definition blockTexts (block : option Fitting.Block) : list string :=
  match block with
  | None => []
  | Some b =>
      if bool_decide (Fitting.type b = "h2" \/ Fitting.type b = "p")
      then [default "" (Fitting.text b)]
      else if bool_decide (Fitting.type b = "stat")
      then [default "" (Fitting.value b); default "" (Fitting.label b)]
      else []
  end.

(** A string that is present and not empty, as a one-element list. *)
Definition shown (s : option string) : list string :=
  match s with
  | Some v => if String.eqb v "" then [] else [v]
  | None => []
  end.

(** The strings of a source document in reading order: title and subtitle
    of the cover, then page by page the page title and the blocks. *)
Definition sourceTexts (source : Adapter.TextoraDoc) : list string :=
  shown (Adapter.doc_title source) ++ shown (Adapter.subtitle source)
  ++ flat_map (fun page => shown (Adapter.title page)
                           ++ flat_map blockTexts (default [] (Adapter.content page)))
       (default [] (Adapter.pages source)).

End AdapterFacts.

(* ===================================================================== *)
(** ** Sample inputs used to exercise the theorems *)
(* ===================================================================== *)

Definition label_at (z : option Z) (name : string) : Schema.PDFElement :=
  Schema.Text name (Schema.mkLayout None None None None None z None)
    (Schema.mkTextData name (Adapter.baseBodyStyle 12)).

(** Siblings with z-indices 3, 1, 2 in document order. *)
Definition siblings_312 : list Schema.PDFElement :=
  [label_at (Some 3) "three"; label_at (Some 1) "one"; label_at (Some 2) "two"].

(** Siblings with ties: z-indices 1, 0 (unset), 1, 0. *)
Definition siblings_ties : list Schema.PDFElement :=
  [label_at (Some 1) "a"; label_at None "b"; label_at (Some 1) "c"; label_at (Some 0) "d"].

(** One external page without a title: a heading, a quote, a paragraph, a
    missing block, a statistic and a second paragraph. *)
Definition sample_source : Adapter.TextoraDoc :=
  Adapter.mkTextoraDoc (Some "Title") None
    (Some [ Adapter.mkTextoraPage None
              (Some [ Some (mkBlock "h2" (Some "Heading") None None None None);
                      Some (mkBlock "quote" (Some "Skipped") None None None None);
                      Some (mkBlock "p" (Some "First") None None None None);
                      None;
                      Some (mkBlock "stat" None None None (Some "42") (Some "answers"));
                      Some (mkBlock "p" (Some "Second") None None None None) ]) ]).

(** A document of one A4 page holding the given elements. *)
Definition one_page (els : list Schema.PDFElement) : Schema.PDFDocument :=
  Schema.mkDocument "doc" "1.0.0"
    [Schema.mkPage "page" (Schema.mkPageSize (Some "A4") None None) None None els]
    None None None.

Definition blk (ty : string) : Block := mkBlock ty None None None None None.

Definition para (t : string) : Block := mkBlock "p" (Some t) None None None None.


(** Weights 8 * 100 + 70 + 120 = 990 against one page: the quote is trimmed
    and 870 units remain, 1.02 of capacity. *)
Definition blocks_trimmed_into_band : list Block :=
  [blk "h2"; blk "h2"; blk "h2"; blk "h2"; blk "h2"; blk "h2"; blk "h2"; blk "h2";
   blk "h3"; blk "quote"].

(** Weights 1343 against one page: both quotes, the statistic and the
    paragraph go, in that order, and 870 units remain. *)
Definition blocks_overweight : list Block :=
  [blk "h2"; blk "quote"; para "a b c"; blk "stat";
   blk "h2"; blk "h2"; blk "h2"; blk "h2"; blk "h2"; blk "h2"; blk "h2";
   blk "h3"; blk "quote"].

(** Weights 100 + 4 * 250: the greedy loop closes a page after the third table. *)
Definition five_blocks : list Block :=
  [blk "h2"; blk "table"; blk "table"; blk "table"; blk "table"].

(* ===================================================================== *)
(** * Properties of the pagination pass *)
(* ===================================================================== *)

(** Worked values of the weight table. *)
Example weight_examples :
  getBlockWeight (Some (blk "h2")) = Units 100 /\
  getBlockWeight (Some (para "one two  three")) = Units 33 /\
  getBlockWeight (Some (para "")) = Units 30 /\
  getBlockWeight (Some (blk "chart")) = Units 80 /\
  getBlockWeight (Some (blk "constructor")) = NotANumber /\
  getBlockWeight None = Units 0.
Proof. vm_compute. repeat split. Qed.

(** A block whose type names an inherited member turns the running weight
    into a value that is no number: no page is closed after it, however
    much follows. Without it the same tables fill three pages. *)
Example paginate_after_inherited_type :
  paginateContent
    (Some [blk "toString"; blk "table"; blk "table"; blk "table"; blk "table";
           blk "table"; blk "table"; blk "table"; blk "table"]) 3 1 =
    Ok [ [blk "toString"; blk "table"; blk "table"; blk "table"; blk "table";
          blk "table"; blk "table"; blk "table"; blk "table"];
         placeholderContent; placeholderContent ] /\
  paginateContent
    (Some [blk "chart"; blk "table"; blk "table"; blk "table"; blk "table";
           blk "table"; blk "table"; blk "table"; blk "table"]) 3 1 =
    Ok [ [blk "chart"; blk "table"; blk "table"; blk "table"];
         [blk "table"; blk "table"; blk "table"];
         [blk "table"; blk "table"] ].
Proof. vm_compute. split; reflexivity. Qed.

(** 100 + 3 * 250 = 850 fills the first page; the fourth table opens the
    second; the third page is filler. *)
Example paginate_five_blocks :
  paginateContent (Some five_blocks) 3 1 =
    Ok [ [blk "h2"; blk "table"; blk "table"; blk "table"];
         [blk "table"];
         placeholderContent ].
Proof. vm_compute. reflexivity. Qed.

(** With a single page requested nothing is split. *)
Example paginate_single_page :
  paginateContent (Some five_blocks) 1 1 = Ok [five_blocks].
Proof. vm_compute. reflexivity. Qed.

(** A first block heavier than a page closes the still empty first page. *)
Example paginate_oversized_first_block :
  paginateContent (Some [blk "h2"; blk "h3"]) 2 20 = Ok [ []; [blk "h2"; blk "h3"] ].
Proof. vm_compute. reflexivity. Qed.

(** A negative page count makes [Array(contentPages)] throw. *)
Example paginate_negative_count :
  paginateContent (Some []) (-1) 1 = RangeError.
Proof. reflexivity. Qed.

Section Pagination.

Variable contentPages : Z.
Variable cap : num.

(** The greedy loop keeps every block, in order. *)
Lemma fold_step_concat bs st :
  let st' := fold_left (paginate_step contentPages cap) bs st in
  concat (pages st') ++ currentPage st' = (concat (pages st) ++ currentPage st) ++ bs.
Proof.
  revert st. induction bs as [|b bs IH]; intros st; simpl.
  - by rewrite app_nil_r.
  - rewrite IH. unfold paginate_step.
    destruct (_ && _); simpl.
    + rewrite concat_app. simpl. rewrite app_nil_r, <- !app_assoc. done.
    + rewrite <- !app_assoc. done.
Qed.

(** The guard [pages.length < contentPages - 1] bounds the closed pages. *)
Lemma fold_step_length bs st :
  Z.of_nat (length (pages st)) <= Z.max 0 (contentPages - 1) ->
  Z.of_nat (length (pages (fold_left (paginate_step contentPages cap) bs st)))
    <= Z.max 0 (contentPages - 1).
Proof.
  revert st. induction bs as [|b bs IH]; intros st Hst; simpl; [done|].
  apply IH. unfold paginate_step.
  destruct (amount_gt _ _); simpl; [|done].
  destruct (Z.ltb_spec (Z.of_nat (length (pages st))) (contentPages - 1)); simpl; [|done].
  rewrite length_app. simpl. lia.
Qed.

(** After at least one block the open page is not empty. *)
Lemma fold_step_nonempty bs st :
  (bs <> [] \/ currentPage st <> []) ->
  currentPage (fold_left (paginate_step contentPages cap) bs st) <> [].
Proof.
  revert st. induction bs as [|b bs IH]; intros st H; simpl.
  - destruct H; done.
  - apply IH. right. unfold paginate_step.
    destruct (_ && _); simpl; [done|].
    destruct (currentPage st); done.
Qed.

End Pagination.

Lemma greedyPages_concat bs n scale : concat (greedyPages bs n scale) = bs.
Proof.
  unfold greedyPages.
  set (st := fold_left _ _ _).
  pose proof (fold_step_concat n (JS.div 850 scale) bs (mkPag [] [] (Units 0))) as H.
  simpl in H. fold st in H.
  destruct (Nat.ltb_spec 0 (length (currentPage st))) as [Hlt|Hge].
  - rewrite concat_app. simpl. by rewrite app_nil_r.
  - destruct (currentPage st); simpl in *; [|lia]. by rewrite app_nil_r in H.
Qed.

Lemma greedyPages_length bs n scale :
  1 <= n -> Z.of_nat (length (greedyPages bs n scale)) <= n.
Proof.
  intros Hn. unfold greedyPages.
  set (st := fold_left _ _ _).
  pose proof (fold_step_length n (JS.div 850 scale) bs (mkPag [] [] (Units 0))) as H.
  simpl in H. fold st in H.
  destruct (0 <? _)%nat; [rewrite length_app; simpl|]; lia.
Qed.

Lemma pad_loop_spec fuel n ps :
  (Z.to_nat (n - Z.of_nat (length ps)) <= fuel)%nat ->
  pad_loop fuel n ps =
    ps ++ replicate (Z.to_nat (n - Z.of_nat (length ps))) placeholderContent.
Proof.
  revert ps. induction fuel as [|fuel IH]; intros ps Hf; simpl.
  - replace (Z.to_nat _) with O by lia. by rewrite app_nil_r.
  - destruct (Z.ltb_spec (Z.of_nat (length ps)) n) as [Hlt|Hge].
    + rewrite IH; rewrite length_app; simpl; [|lia].
      replace (Z.to_nat (n - Z.of_nat (length ps)))
        with (S (Z.to_nat (n - Z.of_nat (length ps + 1)%nat))) by lia.
      simpl. by rewrite <- app_assoc.
    + replace (Z.to_nat _) with O by lia. by rewrite app_nil_r.
  Qed.

Lemma pad_spec n ps :
  pad n ps = ps ++ replicate (Z.to_nat (n - Z.of_nat (length ps))) placeholderContent.
Proof. apply pad_loop_spec. lia. Qed.

Lemma paginate_nonempty_shape b bs n scale :
  1 <= n ->
  paginateContent (Some (b :: bs)) n scale =
    Ok (greedyPages (b :: bs) n scale ++
        replicate (Z.to_nat (n - Z.of_nat (length (greedyPages (b :: bs) n scale))))
                  placeholderContent).
Proof.
  intros Hn. unfold paginateContent. f_equal.
  rewrite pad_spec. unfold slice0.
  destruct (Z.ltb_spec n 0); [lia|].
  pose proof (greedyPages_length (b :: bs) n scale Hn).
  apply take_ge. rewrite length_app, length_replicate. lia.
Qed.

Lemma concat_segments {A} (l : list (list A)) :
  Forall (fun g => exists pre post, concat l = pre ++ g ++ post) l.
Proof.
  induction l as [|g l IH]; constructor; simpl.
  - exists [], (concat l). done.
  - eapply Forall_impl; [exact IH|].
    intros h (pre & post & ->). exists (g ++ pre), post.
    by rewrite <- app_assoc.
Qed.

(** C1. For every block list (missing, empty or not), every
    [contentPages >= 1] and every scale (positive or not),
    [paginateContent] returns, without raising, exactly [contentPages]
    page groups. *)
Theorem paginateContent_exact_page_count
    (blocks : option (list Block)) (contentPages : Z) (scale : Q) :
  1 <= contentPages ->
  exists pages,
    paginateContent blocks contentPages scale = Ok pages /\
    Z.of_nat (length pages) = contentPages.
Proof.
  intros Hn.
  assert (Hfill : exists pages,
             Array_fill contentPages ([] : list Block) = Ok pages /\
             Z.of_nat (length pages) = contentPages).
  { unfold Array_fill. destruct (Z.ltb_spec contentPages 0); [lia|].
    eexists. split; [done|]. rewrite length_replicate. lia. }
  destruct blocks as [[|b bs]|]; [exact Hfill| |exact Hfill].
  rewrite paginate_nonempty_shape by done.
  eexists. split; [done|].
  pose proof (greedyPages_length (b :: bs) contentPages scale Hn).
  rewrite length_app, length_replicate. lia.
Qed.

Lemma paginateContent_exact_page_count_witness :
  1 <= 3 /\
  exists pages,
    paginateContent (Some [mkBlock "h2" (Some "Intro") None None None None]) 3 1 = Ok pages /\
    Z.of_nat (length pages) = 3.
Proof.
  split; [lia|].
  apply (paginateContent_exact_page_count
           (Some [mkBlock "h2" (Some "Intro") None None None None]) 3 1).
  lia.
Defined.

(** C2 as stated fails: on an empty block list the early return hands back
    [contentPages] empty groups, none of which holds the filler blocks. *)
Lemma empty_input_pages_are_not_filler :
  ~ (exists pages,
       paginateContent (Some []) 3 1 = Ok pages /\
       length pages = 3%nat /\
       Forall (fun page => page = placeholderContent) pages).
Proof.
  intros (pages & Heq & _ & Hall).
  vm_compute in Heq. injection Heq as <-.
  apply Forall_cons_1 in Hall as [Hhd _]. discriminate Hhd.
Qed.

(** C2, amended. An empty (or missing) block list with [contentPages = 3]
    yields, for every scale, three page groups and no error; each group is
    empty. *)
Theorem paginateContent_empty_input_three_pages (scale : Q) :
  paginateContent (Some []) 3 scale = Ok [[]; []; []] /\
  paginateContent None 3 scale = Ok [[]; []; []].
Proof. split; reflexivity. Qed.

(** C10. For a non-empty block list and [contentPages >= 1] the result is
    the groups of the greedy loop followed only by filler pages; the greedy
    groups are consecutive segments of the input whose concatenation is the
    input, and there are at most [contentPages] of them, so that the final
    truncation discards nothing. *)
Theorem paginateContent_preserves_blocks
    (bs : list Block) (contentPages : Z) (scale : Q) :
  bs <> [] -> 1 <= contentPages ->
  exists k : nat,
    paginateContent (Some bs) contentPages scale
      = Ok (greedyPages bs contentPages scale ++ replicate k placeholderContent) /\
    concat (greedyPages bs contentPages scale) = bs /\
    Forall (fun g => exists pre post, bs = pre ++ g ++ post)
           (greedyPages bs contentPages scale) /\
    Z.of_nat (length (greedyPages bs contentPages scale)) + Z.of_nat k = contentPages.
Proof.
  intros Hne Hn. set (groups := greedyPages bs contentPages scale).
  destruct bs as [|b bs]; [done|].
  exists (Z.to_nat (contentPages - Z.of_nat (length groups))).
  pose proof (greedyPages_length (b :: bs) contentPages scale Hn).
  pose proof (greedyPages_concat (b :: bs) contentPages scale) as Hc.
  split; [by apply paginate_nonempty_shape|].
  split; [done|].
  split; [|fold groups in H; lia].
  pose proof (concat_segments groups) as Hs.
  fold groups in Hc. by rewrite Hc in Hs.
Qed.

Lemma paginateContent_preserves_blocks_witness :
  five_blocks <> [] /\ 1 <= 3 /\
  exists k : nat,
    paginateContent (Some five_blocks) 3 1
      = Ok (greedyPages five_blocks 3 1 ++ replicate k placeholderContent) /\
    concat (greedyPages five_blocks 3 1) = five_blocks /\
    Forall (fun g => exists pre post, five_blocks = pre ++ g ++ post)
           (greedyPages five_blocks 3 1) /\
    Z.of_nat (length (greedyPages five_blocks 3 1)) + Z.of_nat k = 3.
Proof.
  split; [discriminate|]. split; [lia|].
  apply (paginateContent_preserves_blocks five_blocks 3 1); [discriminate|lia].
Defined.

(* ===================================================================== *)
(** * Properties of the stable sort *)
(* ===================================================================== *)

Section SortByKey.

(** A comparator that orders by an integer key. *)
Context {A : Type} (key : A -> Z) (cmp : A -> A -> Z).
Hypothesis cmp_key : forall a b, cmp a b <= 0 <-> key a <= key b.

Lemma sort_insert_perm x l : sort_insert cmp x l ≡ₚ x :: l.
Proof.
  induction l as [|y l IH]; simpl; [done|].
  destruct (cmp x y <=? 0); [done|].
  rewrite IH. apply Permutation_swap.
Qed.

Lemma sort_perm l : sort cmp l ≡ₚ l.
Proof.
  induction l as [|x l IH]; simpl; [done|].
  rewrite sort_insert_perm. by constructor.
Qed.

Lemma sort_insert_sorted x l :
  StronglySorted (fun a b => key a <= key b) l ->
  StronglySorted (fun a b => key a <= key b) (sort_insert cmp x l).
Proof.
  induction 1 as [|y l Hs IH Hall]; simpl.
  - repeat constructor.
  - destruct (Z.leb_spec (cmp x y) 0) as [Hle|Hgt].
    + apply cmp_key in Hle.
      constructor; [by constructor|].
      constructor; [lia|].
      eapply Forall_impl; [exact Hall|]. simpl. intros; lia.
    + assert (key y <= key x) by (pose proof (cmp_key x y); lia).
      constructor; [done|].
      rewrite sort_insert_perm. constructor; [lia|done].
Qed.

Lemma sort_sorted l : StronglySorted (fun a b => key a <= key b) (sort cmp l).
Proof.
  induction l as [|x l IH]; simpl; [constructor|by apply sort_insert_sorted].
Qed.

(** An element is inserted behind smaller keys only, hence in front of
    every element of its own key. *)
Lemma sort_insert_filter z x l :
  filter (fun e => key e = z) (sort_insert cmp x l) =
  filter (fun e => key e = z) (x :: l).
Proof.
  induction l as [|y l IH]; simpl; [done|].
  destruct (Z.leb_spec (cmp x y) 0) as [Hle|Hgt]; [done|].
  assert (key y < key x) by (pose proof (cmp_key x y); lia).
  rewrite filter_cons, IH, !filter_cons.
  destruct (decide (key y = z)), (decide (key x = z)); try done. lia.
Qed.

Lemma sort_stable z l :
  filter (fun e => key e = z) (sort cmp l) = filter (fun e => key e = z) l.
Proof.
  induction l as [|x l IH]; simpl; [done|].
  by rewrite sort_insert_filter, !filter_cons, IH.
Qed.

(** Sorted arrangements that agree key by key are equal. *)
Lemma sorted_stable_unique l1 l2 :
  StronglySorted (fun a b => key a <= key b) l1 ->
  StronglySorted (fun a b => key a <= key b) l2 ->
  (forall z, filter (fun e => key e = z) l1 = filter (fun e => key e = z) l2) ->
  l1 = l2.
Proof.
  intros H1. revert l2. induction H1 as [|a l1 Hs1 IH Ha]; intros l2 H2 Hf.
  - destruct l2 as [|b l2]; [done|].
    specialize (Hf (key b)). rewrite filter_cons in Hf.
    destruct (decide (key b = key b)); done.
  - destruct H2 as [|b l2 Hs2 Hb].
    { specialize (Hf (key a)). rewrite filter_cons in Hf.
      destruct (decide (key a = key a)); done. }
    assert (Hab : key a = key b).
    { assert (a ∈ b :: l2) as Hin1.
      { eapply (proj1 (list_elem_of_filter (fun e => key e = key a) _ _)).
        rewrite <- Hf, filter_cons. destruct (decide (key a = key a)); [left|done]. }
      assert (b ∈ a :: l1) as Hin2.
      { eapply (proj1 (list_elem_of_filter (fun e => key e = key b) _ _)).
        rewrite Hf, filter_cons. destruct (decide (key b = key b)); [left|done]. }
      rewrite Forall_forall in Ha, Hb.
      apply elem_of_cons in Hin1 as [->|Hin1]; [done|].
      apply elem_of_cons in Hin2 as [->|Hin2]; [done|].
      specialize (Ha _ Hin2). specialize (Hb _ Hin1). lia. }
    pose proof (Hf (key a)) as Hfa. rewrite !filter_cons in Hfa.
    destruct (decide (key a = key a)); [|done].
    destruct (decide (key b = key a)); [|congruence].
    injection Hfa as -> Hrest.
    f_equal. apply IH; [done|].
    intros z. specialize (Hf z). rewrite !filter_cons in Hf.
    destruct (decide (key b = z)); [by injection Hf|done].
Qed.

(** Sorting elements paired with a value computed from them is sorting
    the elements. *)
Lemma sort_paired {B} (f : A -> B) l :
  sort (fun p q : A * B => cmp (fst p) (fst q)) (map (fun c => (c, f c)) l) =
  map (fun c => (c, f c)) (sort cmp l).
Proof.
  induction l as [|x l IH]; simpl; [done|].
  rewrite IH. generalize (sort cmp l). clear.
  induction l as [|y l IH]; simpl; [done|].
  destruct (cmp x y <=? 0); simpl; [done|]. by rewrite IH.
Qed.

End SortByKey.

(** Only the sign a comparator gives on the elements sorted matters. *)
Lemma sort_insert_ext {A} (cmp cmp' : A -> A -> Z) x l :
  (forall y, y ∈ l -> (cmp x y <=? 0) = (cmp' x y <=? 0)) ->
  sort_insert cmp x l = sort_insert cmp' x l.
Proof.
  induction l as [|y l IH]; intros H; simpl; [done|].
  rewrite (H y) by left. destruct (cmp' x y <=? 0); [done|].
  f_equal. apply IH. intros z Hz. apply H. by right.
Qed.

Lemma sort_ext {A} (cmp cmp' : A -> A -> Z) l :
  (forall x y, x ∈ l -> y ∈ l -> (cmp x y <=? 0) = (cmp' x y <=? 0)) ->
  sort cmp l = sort cmp' l.
Proof.
  induction l as [|x l IH]; intros H; simpl; [done|].
  rewrite IH by (intros; apply H; by right).
  apply sort_insert_ext. intros y Hy. apply H; [left|right].
  by rewrite sort_perm in Hy.
Qed.

(* ===================================================================== *)
(** * Properties of the fit pass *)
(* ===================================================================== *)

Lemma Qltb_true a b : Qltb a b = true <-> (a < b)%Q.
Proof.
  unfold Qltb. rewrite negb_true_iff.
  split.
  - intros H. apply Qnot_le_lt. intros Hle. apply Qle_bool_iff in Hle. congruence.
  - intros H. destruct (Qle_bool b a) eqn:E; [|done].
    apply Qle_bool_iff in E. exfalso. eapply Qlt_not_le; eauto.
Qed.

Lemma Qltb_false a b : Qltb a b = false <-> (b <= a)%Q.
Proof.
  unfold Qltb. rewrite negb_false_iff. apply Qle_bool_iff.
Qed.

Lemma count_runs_eq w c1 s1 :
  count_runs w (String c1 s1) =
    match FitFacts.white_prefix (String c1 s1) with
    | Some rest => count_runs false rest
    | None => (if w then 0 else 1) + count_runs true s1
    end.
Proof.
  destruct s1 as [|c2 [|c3 s3]]; simpl;
    repeat (match goal with |- context [if ?b then _ else _] => destruct b end; simpl);
    reflexivity.
Qed.

Lemma white_prefix_shorter s rest :
  FitFacts.white_prefix s = Some rest -> (String.length rest < String.length s)%nat.
Proof.
  destruct s as [|c1 [|c2 [|c3 s3]]]; simpl;
    repeat match goal with |- context [if ?b then _ else _] => destruct b end;
    intros [= <-]; simpl; lia.
Qed.

(** A text has no more words than bytes. *)
Lemma count_runs_bounds n s w :
  (String.length s <= n)%nat -> 0 <= count_runs w s <= Z.of_nat (String.length s).
Proof.
  revert s w. induction n as [|n IH]; intros [|c1 s1] w Hn; simpl in Hn; try (simpl; lia).
  rewrite count_runs_eq.
  destruct (FitFacts.white_prefix (String c1 s1)) as [rest|] eqn:E.
  - apply white_prefix_shorter in E. simpl in E.
    specialize (IH rest false ltac:(lia)). simpl String.length. lia.
  - specialize (IH s1 true ltac:(lia)). simpl String.length. destruct w; lia.
Qed.

Lemma count_runs_nonneg w s : 0 <= count_runs w s.
Proof. by apply (count_runs_bounds (String.length s)). Qed.

Lemma countWords_nonneg s : 0 <= countWords s.
Proof.
  unfold countWords. destruct (String.eqb s ""); [lia|apply count_runs_nonneg].
Qed.

Lemma paragraph_weight_ge_30 n :
  0 <= n -> 30 <= Qceiling (inject_Z n * 0.8 + 30).
Proof.
  intros Hn.
  assert (H : (inject_Z 30 <= inject_Z n * 0.8 + 30)%Q).
  { assert (inject_Z 0 <= inject_Z n)%Q as H0 by (by rewrite <- Zle_Qle).
    change (inject_Z 0) with 0%Q in H0. change (inject_Z 30) with 30%Q. lra. }
  apply Qceiling_resp_le in H. by rewrite Qceiling_Z in H.
Qed.

(** *** Sums of weights *)

Lemma plus_0_l a : plus (Units 0) a = a.
Proof. by destruct a. Qed.

Lemma plus_0_r a : plus a (Units 0) = a.
Proof. destruct a; simpl; [f_equal; lia|done]. Qed.

Lemma plus_comm a b : plus a b = plus b a.
Proof. destruct a, b; simpl; try done. f_equal. lia. Qed.

Lemma plus_assoc a b c : plus a (plus b c) = plus (plus a b) c.
Proof. destruct a, b, c; simpl; try done. f_equal. lia. Qed.

Lemma plus_Units a b n :
  plus a b = Units n -> exists x y, a = Units x /\ b = Units y /\ n = x + y.
Proof. destruct a as [x|], b as [y|]; simpl; intros [= <-]. eauto. Qed.

(** Taking a number away again leaves what was there, number or not. *)
Lemma plus_minus a n : minus (plus a (Units n)) (Units n) = a.
Proof. destruct a; simpl; [f_equal; lia|done]. Qed.

Lemma amount_gt_Fin a q :
  amount_gt a (Fin q) = true <-> exists n, a = Units n /\ (q < inject_Z n)%Q.
Proof.
  destruct a as [n|]; simpl.
  - rewrite Qltb_true. split; [eauto|]. by intros (? & [= <-] & ?).
  - split; [done|]. by intros (? & ? & _).
Qed.

Lemma amount_le_Fin a q :
  amount_le a (Fin q) = true <-> exists n, a = Units n /\ (inject_Z n <= q)%Q.
Proof.
  destruct a as [n|]; simpl.
  - rewrite negb_true_iff, Qltb_false. split; [eauto|]. by intros (? & [= <-] & ?).
  - split; [done|]. by intros (? & ? & _).
Qed.

(** The weight of a block is a number exactly when its type names no
    inherited member that the table does not shadow. *)
Lemma getBlockWeight_cases b :
  (exists n, getBlockWeight (Some b) = Units n /\ 30 <= n) \/
  (getBlockWeight (Some b) = NotANumber /\ inherited (type b) = true).
Proof.
  unfold getBlockWeight.
  destruct (weights b !! type b) as [w|] eqn:E.
  - left. destruct (Z.eqb_spec w 0); [exists 80; split; [done|lia]|].
    exists w. split; [done|].
    apply elem_of_list_to_map_2 in E.
    pose proof (paragraph_weight_ge_30 _ (countWords_nonneg (text_or_empty b))).
    repeat (apply elem_of_cons in E as [E|E]; [injection E as _ ->; lia|]).
    by apply elem_of_nil in E.
  - destruct (inherited (type b)); [by right|].
    left. exists 80. split; [done|lia].
Qed.

(** Every block whose weight is a number weighs at least 30 units. *)
Lemma getBlockWeight_ge_30 b n : getBlockWeight (Some b) = Units n -> 30 <= n.
Proof.
  intros H. destruct (getBlockWeight_cases b) as [(m & Hm & ?)|[Hm _]];
    rewrite Hm in H; by simplify_eq.
Qed.

Lemma getBlockWeight_nonneg o n : getBlockWeight o = Units n -> 0 <= n.
Proof.
  destruct o as [b|]; [|by intros [= <-]].
  intros H%getBlockWeight_ge_30. lia.
Qed.

(** The types the trimmer looks for are keys of the table: such a block
    weighs a number. *)
Lemma getBlockWeight_listed b :
  type b ∈ removalPriority \/ type b = "p" -> exists n, getBlockWeight (Some b) = Units n.
Proof.
  intros H. destruct (getBlockWeight_cases b) as [(n & Hn & _)|[_ Hi]]; [eauto|].
  exfalso. unfold removalPriority in H.
  destruct H as [H|H]; [|rewrite H in Hi; vm_compute in Hi; discriminate].
  repeat (apply elem_of_cons in H as [H|H];
          [rewrite H in Hi; vm_compute in Hi; discriminate|]).
  by apply elem_of_nil in H.
Qed.

Lemma fold_weights_acc (l : list (option Block)) (a : amount) :
  fold_left (fun sum b => plus sum (getBlockWeight b)) l a = plus a (sumWeights l).
Proof.
  unfold sumWeights. revert a. induction l as [|x l IH]; intros a; cbn [fold_left].
  - by rewrite plus_0_r.
  - rewrite (IH (plus a _)), (IH (plus (Units 0) _)), plus_0_l. by rewrite plus_assoc.
Qed.

Lemma sumWeights_cons o l : sumWeights (o :: l) = plus (getBlockWeight o) (sumWeights l).
Proof. unfold sumWeights at 1. cbn [fold_left]. by rewrite fold_weights_acc, plus_0_l. Qed.

Lemma sumWeights_app l1 l2 : sumWeights (l1 ++ l2) = plus (sumWeights l1) (sumWeights l2).
Proof.
  induction l1 as [|o l1 IH]; cbn [app].
  - change (sumWeights []) with (Units 0). by rewrite plus_0_l.
  - by rewrite !sumWeights_cons, IH, plus_assoc.
Qed.

Lemma sumWeights_nonneg l n : sumWeights l = Units n -> 0 <= n.
Proof.
  revert n. induction l as [|o l IH]; intros n; [by intros [= <-]|].
  rewrite sumWeights_cons. intros (x & y & Hx & Hy & ->)%plus_Units.
  apply getBlockWeight_nonneg in Hx. specialize (IH _ Hy). lia.
Qed.

Import FitSpec.

Lemma totalWeight_sumWeights bs : sumWeights (Some <$> bs) = totalWeight bs.
Proof.
  induction bs as [|b bs IH]; [done|].
  rewrite fmap_cons, sumWeights_cons, IH. done.
Qed.

Lemma totalWeight_nonneg bs n : totalWeight bs = Units n -> 0 <= n.
Proof. rewrite <- totalWeight_sumWeights. apply sumWeights_nonneg. Qed.

Lemma totalWeight_cons x l :
  totalWeight (x :: l) = plus (getBlockWeight (Some x)) (totalWeight l).
Proof. reflexivity. Qed.

(** A sequence holding a block whose type names an inherited member that
    the table does not shadow has no number for a weight. *)
Lemma totalWeight_inherited bs b :
  b ∈ bs -> getBlockWeight (Some b) = NotANumber -> totalWeight bs = NotANumber.
Proof.
  intros Hb Hw. induction bs as [|x bs IH]; [by apply elem_of_nil in Hb|].
  rewrite totalWeight_cons.
  apply elem_of_cons in Hb as [<-|Hb]; [by rewrite Hw|].
  rewrite IH by done. by destruct (getBlockWeight (Some x)).
Qed.


Lemma over110_spec bs n :
  over110 (n * 850) (sumWeights (Some <$> bs)) = true <-> exceedsBy10 bs n.
Proof.
  unfold over110, exceedsBy10, capacityOf.
  rewrite amount_gt_Fin, totalWeight_sumWeights.
  split; intros (w & Hw & H); exists w; (split; [done|lra]).
Qed.

Lemma scan_down_nil C ty n w : slots (scan_down C ty n (mkTrim [] w)) = [].
Proof. induction n as [|n IH]; simpl; done. Qed.

Lemma priority_loop_nil C tys w : slots (priority_loop C tys (mkTrim [] w)) = [].
Proof.
  revert w. induction tys as [|ty tys IH]; intros w; simpl; [done|].
  destruct (within105 _ _); [done|]. apply IH.
Qed.

Lemma trim_nil C w : trim C (mkTrim [] w) = [].
Proof.
  unfold trim.
  pose proof (priority_loop_nil C removalPriority w) as H.
  destruct (priority_loop C removalPriority (mkTrim [] w)) as [sl wn].
  simpl in H. subst sl.
  destruct (negb _); [|done].
  unfold paragraphs. simpl. done.
Qed.

(** The blocks returned by the fit pass: trimmed when the guard holds, the
    input otherwise. *)
Lemma fit_blocks bs n :
  blocks (optimizeContentToFit (Some bs) n) =
    if over110 (n * 850) (sumWeights (Some <$> bs))
    then trim (n * 850) (mkTrim (Some <$> bs) (sumWeights (Some <$> bs)))
    else bs.
Proof.
  destruct bs as [|b bs]; [|done].
  change (Some <$> []) with ([] : list (option Block)).
  rewrite trim_nil. by destruct (over110 _ _).
Qed.

Lemma fit_scale b bs n :
  scale (optimizeContentToFit (Some (b :: bs)) n) =
    scaleRule (utilizationOf (blocks (optimizeContentToFit (Some (b :: bs)) n)) n).
Proof.
  unfold utilizationOf, capacityOf. rewrite <- totalWeight_sumWeights. done.
Qed.

Lemma scaleRule_cases u : scaleRule u = 0.88%Q \/ scaleRule u = 1%Q \/ scaleRule u = 1.12%Q.
Proof. unfold scaleRule. destruct (JS.gt _ _); [|destruct (JS.lt _ _)]; auto. Qed.

(** C3. [optimizeContentToFit] is defined on every input: a missing or
    empty block list gives the empty block list with scale 1 (and the empty
    metrics object), and every other block list, for every [contentPages]
    including zero and negative ones, where the utilization is an infinity
    or NaN, gives a result whose scale is one of 0.88, 1 and 1.12. *)
Theorem optimizeContentToFit_total_empty (contentPages : Z) :
  optimizeContentToFit None contentPages = mkFit [] 1 None /\
  optimizeContentToFit (Some []) contentPages = mkFit [] 1 None /\
  forall allBlocks, exists r,
    optimizeContentToFit allBlocks contentPages = r /\
    (scale r = 0.88%Q \/ scale r = 1%Q \/ scale r = 1.12%Q).
Proof.
  split; [done|]. split; [done|].
  intros allBlocks. eexists. split; [done|].
  destruct allBlocks as [[|b bs]|]; [simpl; auto| |simpl; auto].
  rewrite fit_scale. apply scaleRule_cases.
Qed.



(** A weight that is no number is never trimmed and gives scale 1. *)
Lemma scale_is_one_without_number b bs n :
  totalWeight (b :: bs) = NotANumber ->
  blocks (optimizeContentToFit (Some (b :: bs)) n) = b :: bs /\
  scale (optimizeContentToFit (Some (b :: bs)) n) = 1%Q.
Proof.
  intros Hnan.
  assert (Hblocks : blocks (optimizeContentToFit (Some (b :: bs)) n) = b :: bs).
  { rewrite fit_blocks. destruct (over110 _ _) eqn:E; [|done].
    apply over110_spec in E. destruct E as (w & Hw & _). congruence. }
  split; [done|].
  rewrite fit_scale, Hblocks. unfold utilizationOf. by rewrite Hnan.
Qed.



(** A list of headings and tables weighing 1200 units on two pages has a
    utilization strictly between 0.7 and 1: scale 1. The same list with one
    block whose type names an inherited member has no number for a weight:
    nothing is trimmed, whatever follows, and the scale is 1. *)
Example scale_examples :
  scale (optimizeContentToFit
           (Some [blk "table"; blk "table"; blk "table"; blk "table"; blk "h2"; blk "h2"]) 2)
    = 1%Q /\
  scale (optimizeContentToFit (Some [blk "table"; blk "h2"]) 2) = 1.12%Q /\
  scale (optimizeContentToFit (Some [blk "table"; blk "table"; blk "table"; blk "table"]) 1)
    = 0.88%Q /\
  optimizeContentToFit (Some [blk "constructor"]) 1
    = mkFit [blk "constructor"] 1 (Some (mkMetrics NotANumber 850 NaN 1)).
Proof. vm_compute. repeat split. Qed.

(** A utilization inside the band [0.95, 1.05] means a positive capacity
    and a weight that does not exceed it by more than 10%. *)
Lemma band_not_exceeding bs n :
  JS.le (Fin 0.95) (utilizationOf bs n) = true ->
  JS.le (utilizationOf bs n) (Fin 1.05) = true ->
  ~ exceedsBy10 bs n.
Proof.
  unfold utilizationOf, exceedsBy10. intros Hlo Hhi (w & Hw & Hex).
  rewrite Hw in Hlo, Hhi. unfold amount_div, div in Hlo, Hhi.
  pose proof (totalWeight_nonneg bs w Hw) as H0.
  rewrite Zle_Qle in H0. change (inject_Z 0) with 0%Q in H0.
  set (W := inject_Z w) in *.
  set (C := inject_Z (capacityOf n)) in *.
  revert Hlo Hhi.
  destruct (Qeq_bool C 0) eqn:E0.
  - destruct (Qltb 0 W); [done|]. destruct (Qltb W 0); done.
  - apply Qeq_bool_neq in E0. simpl.
    rewrite !negb_true_iff, !Qltb_false. intros Hlo Hhi.
    assert (HWC : (C * (W / C) == W)%Q) by (by apply Qmult_div_r).
    destruct (Qlt_le_dec 0 C) as [Hpos|Hneg].
    + assert ((W / C) * C <= 1.05 * C)%Q by (apply Qmult_le_compat_r; lra).
      rewrite Qmult_comm in H. rewrite HWC in H. lra.
    + assert (Hlt : (C < 0)%Q) by (apply Qle_lteq in Hneg as [|]; [done|by symmetry in H]).
      assert (0 <= (W / C) * (- C))%Q by (apply Qmult_le_0_compat; lra).
      assert (((W / C) * (- C)) == - W)%Q by (rewrite <- HWC at 2; ring).
      assert (W == 0)%Q by lra.
      rewrite H2 in HWC. unfold Qdiv in Hlo. rewrite H2 in Hlo. lra.
Qed.

(** C6. When the blocks returned by a first call have a utilization inside
    the band [0.95, 1.05], a second call on them with the same page count
    returns them unchanged. *)
Theorem optimizeContentToFit_idempotent_in_band (bs : list Block) (contentPages : Z) :
  JS.le (Fin 0.95)
     (utilizationOf (blocks (optimizeContentToFit (Some bs) contentPages)) contentPages)
    = true ->
  JS.le (utilizationOf (blocks (optimizeContentToFit (Some bs) contentPages)) contentPages)
     (Fin 1.05)
    = true ->
  blocks (optimizeContentToFit
            (Some (blocks (optimizeContentToFit (Some bs) contentPages))) contentPages)
    = blocks (optimizeContentToFit (Some bs) contentPages).
Proof.
  set (out := blocks (optimizeContentToFit (Some bs) contentPages)).
  intros Hlo Hhi.
  rewrite fit_blocks.
  destruct (over110 _ _) eqn:E; [|done].
  apply over110_spec in E. by apply band_not_exceeding in E.
Qed.

Lemma optimizeContentToFit_idempotent_in_band_witness :
  JS.le (Fin 0.95)
     (utilizationOf (blocks (optimizeContentToFit (Some blocks_trimmed_into_band) 1)) 1)
    = true /\
  JS.le (utilizationOf (blocks (optimizeContentToFit (Some blocks_trimmed_into_band) 1)) 1)
     (Fin 1.05)
    = true /\
  blocks (optimizeContentToFit
            (Some (blocks (optimizeContentToFit (Some blocks_trimmed_into_band) 1))) 1)
    = blocks (optimizeContentToFit (Some blocks_trimmed_into_band) 1).
Proof.
  split; [vm_compute; reflexivity|]. split; [vm_compute; reflexivity|].
  apply (optimizeContentToFit_idempotent_in_band blocks_trimmed_into_band 1);
    vm_compute; reflexivity.
Defined.

Example blocks_trimmed_into_band_trims :
  map type (blocks (optimizeContentToFit (Some blocks_trimmed_into_band) 1)) =
    ["h2"; "h2"; "h2"; "h2"; "h2"; "h2"; "h2"; "h2"; "h3"].
Proof. vm_compute. reflexivity. Qed.

(* ===================================================================== *)
(** * The trimming phase refines the specified removal order *)
(* ===================================================================== *)

Lemma nonNull_cons o arr :
  nonNull (o :: arr) = match o with Some b => b :: nonNull arr | None => nonNull arr end.
Proof. by destruct o. Qed.

Lemma nonNull_app arr1 arr2 : nonNull (arr1 ++ arr2) = nonNull arr1 ++ nonNull arr2.
Proof. apply omap_app. Qed.

Lemma nonNull_fmap_Some (bs : list Block) : nonNull (Some <$> bs) = bs.
Proof.
  induction bs as [|b bs IH]; [done|].
  by rewrite fmap_cons, nonNull_cons, IH.
Qed.

Lemma sumWeights_nonNull arr : sumWeights arr = totalWeight (nonNull arr).
Proof.
  induction arr as [|o arr IH]; [done|].
  rewrite sumWeights_cons, IH, nonNull_cons. destruct o; [done|].
  change (getBlockWeight None) with (Units 0). by rewrite plus_0_l.
Qed.

Lemma totalWeight_app l1 l2 :
  totalWeight (l1 ++ l2) = plus (totalWeight l1) (totalWeight l2).
Proof.
  rewrite <- !totalWeight_sumWeights, fmap_app. apply sumWeights_app.
Qed.

Lemma elem_of_nonNull (arr : list (option Block)) x :
  x ∈ nonNull arr <-> exists i, arr !! i = Some (Some x).
Proof.
  unfold nonNull. rewrite list_elem_of_omap. split.
  - intros (o & Hin & Ho). destruct o as [b|]; simplify_eq/=.
    by apply list_elem_of_lookup_1 in Hin.
  - intros (i & Hi). exists (Some x). split; [|done].
    by eapply list_elem_of_lookup_2.
Qed.

(** Writing [null] into an occupied slot removes exactly that block. *)
Lemma nonNull_split (arr : list (option Block)) i b :
  arr !! i = Some (Some b) ->
  nonNull arr = nonNull (take i arr) ++ b :: nonNull (drop (S i) arr) /\
  nonNull (<[i := None]> arr) = nonNull (take i arr) ++ nonNull (drop (S i) arr).
Proof.
  intros Hi. split.
  - rewrite <- (take_drop_middle arr i (Some b) Hi) at 1.
    by rewrite nonNull_app, nonNull_cons.
  - rewrite insert_take_drop by (by eapply lookup_lt_Some).
    by rewrite nonNull_app, nonNull_cons.
Qed.

Lemma slot_Some (arr : list (option Block)) i b :
  slot arr i = Some b <-> arr !! i = Some (Some b).
Proof.
  unfold slot. destruct (arr !! i) as [[x|]|]; simpl; split; intros; simplify_eq; done.
Qed.

Lemma slot_has_type_true o ty :
  slot_has_type o ty = true <-> exists b, o = Some b /\ type b = ty.
Proof.
  destruct o as [b|]; simpl.
  - rewrite String.eqb_eq. split; [eauto|]. by intros (? & [= <-] & ?).
  - split; [done|]. by intros (? & ? & _).
Qed.

Lemma within105_spec n st :
  consistent st ->
  within105 (n * 850) st = true <-> within5 (nonNull (slots st)) n.
Proof.
  unfold consistent, within105, within5, capacityOf. intros ->.
  rewrite amount_le_Fin, sumWeights_nonNull.
  split; intros (w & Hw & H); exists w; (split; [done|lra]).
Qed.

Lemma within105_false n st :
  consistent st ->
  within105 (n * 850) st = false -> ~ within5 (nonNull (slots st)) n.
Proof.
  intros Hc Hf Hw. apply (within105_spec n st Hc) in Hw. congruence.
Qed.

Lemma consistent_remove st i b :
  consistent st -> slots st !! i = Some (Some b) ->
  type b ∈ removalPriority \/ type b = "p" ->
  consistent (mkTrim (<[i := None]> (slots st))
                     (minus (weightNow st) (getBlockWeight (Some b)))).
Proof.
  unfold consistent. cbn [slots weightNow]. intros -> Hi (n & Hn)%getBlockWeight_listed.
  destruct (nonNull_split _ _ _ Hi) as [H1 H2].
  rewrite !sumWeights_nonNull, H1, H2, !totalWeight_app, totalWeight_cons, Hn.
  rewrite (plus_comm (Units n)), plus_assoc. apply plus_minus.
Qed.

Lemma removal_subseteq n l l' : removal n l l' -> forall x, x ∈ l' -> x ∈ l.
Proof.
  intros [pre b post ? ? _ _ _ _|pre b post _ _ _ _] x;
    rewrite !elem_of_app, elem_of_cons; tauto.
Qed.

Lemma removals_subseteq n l l' : rtc (removal n) l l' -> forall x, x ∈ l' -> x ∈ l.
Proof.
  induction 1 as [|l1 l2 l3 H12 _ IH]; [done|].
  intros x Hx. eapply removal_subseteq; eauto.
Qed.

Lemma slot_insert_None_eq (arr : list (option Block)) i :
  slot (<[i := None]> arr) i = None.
Proof.
  unfold slot. destruct (decide (i < length arr)%nat) as [Hlt|Hge].
  - by rewrite list_lookup_insert_eq.
  - rewrite list_insert_ge by lia. by rewrite lookup_ge_None_2 by lia.
Qed.

Lemma slot_insert_ne (arr : list (option Block)) i j o :
  i <> j -> slot (<[i := o]> arr) j = slot arr j.
Proof. intros Hne. unfold slot. by rewrite list_lookup_insert_ne. Qed.

Section Trimming.

Variable contentPages : Z.

(** The backward scan for one type performs removals by priority, and
    ends within the bound or with no block of that type left. *)
Lemma scan_down_refines ty earlier later k st :
  priorityOrder = earlier ++ ty :: later ->
  consistent st ->
  within105 (contentPages * 850) st = false ->
  (forall x, x ∈ nonNull (slots st) -> type x ∉ earlier) ->
  (forall j, (k <= j)%nat -> slot_has_type (slot (slots st) j) ty = false) ->
  consistent (scan_down (contentPages * 850) ty k st) /\
  rtc (removal contentPages) (nonNull (slots st))
      (nonNull (slots (scan_down (contentPages * 850) ty k st))) /\
  (within105 (contentPages * 850) (scan_down (contentPages * 850) ty k st) = true \/
   forall x, x ∈ nonNull (slots (scan_down (contentPages * 850) ty k st)) -> type x <> ty).
Proof.
  intros Hprio. revert st.
  induction k as [|i IH]; intros st Hc Hw He Hlast; simpl.
  - split; [done|]. split; [done|]. right. intros x Hx Hty.
    apply elem_of_nonNull in Hx as (j & Hj).
    specialize (Hlast j ltac:(lia)).
    apply slot_Some in Hj. rewrite Hj in Hlast. simpl in Hlast.
    rewrite Hty, String.eqb_refl in Hlast. done.
  - destruct (slot_has_type (slot (slots st) i) ty) eqn:E.
    + apply slot_has_type_true in E as (b & Hb & Hty). rewrite Hb.
      apply slot_Some in Hb as Hi.
      set (st' := mkTrim (<[i := None]> (slots st))
                         (minus (weightNow st) (getBlockWeight (Some b)))).
      assert (Hlisted : type b ∈ removalPriority).
      { change removalPriority with priorityOrder. rewrite Hprio, Hty.
        apply elem_of_app. right. left. }
      assert (Hc' : consistent st') by (apply consistent_remove; auto).
      destruct (nonNull_split _ _ _ Hi) as [H1 H2].
      assert (Hstep : removal contentPages (nonNull (slots st)) (nonNull (slots st'))).
      { cbn [slots st']. rewrite H1, H2.
        apply remove_by_priority with (earlier := earlier) (later := later).
        - rewrite <- H1. by apply within105_false.
        - by rewrite Hty.
        - by rewrite <- H1.
        - intros x Hx Hxt. apply elem_of_nonNull in Hx as (j & Hj).
          rewrite lookup_drop in Hj. apply slot_Some in Hj.
          specialize (Hlast (S i + j)%nat ltac:(lia)).
          rewrite Hj in Hlast. simpl in Hlast.
          rewrite Hxt, Hty, String.eqb_refl in Hlast. done. }
      destruct (within105 (contentPages * 850) st') eqn:Ew.
      * split; [done|]. split; [by apply rtc_once|]. by left.
      * destruct (IH st' Hc' Ew) as (Hc'' & Hrtc & Hfin).
        -- intros x Hx. apply He. eapply removal_subseteq; eauto.
        -- intros j Hj. simpl.
           destruct (decide (i = j)) as [<-|Hne].
           ++ by rewrite slot_insert_None_eq.
           ++ rewrite slot_insert_ne by done. apply Hlast. lia.
        -- split; [done|]. split; [|done]. eapply rtc_l; eauto.
    + apply IH; try done.
      intros j Hj. destruct (decide (j = i)) as [->|Hne]; [done|].
      apply Hlast. lia.
Qed.

Lemma priority_loop_within tys st :
  within105 (contentPages * 850) st = true -> priority_loop (contentPages * 850) tys st = st.
Proof. intros H. destruct tys; simpl; [done|]. by rewrite H. Qed.

(** The loop over the priority list performs removals by priority, and
    ends within the bound or with no block of a listed type left. *)
Lemma priority_loop_refines later earlier st :
  priorityOrder = earlier ++ later ->
  consistent st ->
  (forall x, x ∈ nonNull (slots st) -> type x ∉ earlier) ->
  consistent (priority_loop (contentPages * 850) later st) /\
  rtc (removal contentPages) (nonNull (slots st))
      (nonNull (slots (priority_loop (contentPages * 850) later st))) /\
  (within105 (contentPages * 850) (priority_loop (contentPages * 850) later st) = true \/
   forall x, x ∈ nonNull (slots (priority_loop (contentPages * 850) later st)) ->
             type x ∉ priorityOrder).
Proof.
  revert earlier st. induction later as [|ty later IH]; intros earlier st Hprio Hc He.
  - simpl. rewrite app_nil_r in Hprio. subst earlier. auto using rtc_refl.
  - simpl. destruct (within105 (contentPages * 850) st) eqn:Ew; [auto using rtc_refl|].
    destruct (scan_down_refines ty earlier later (length (slots st)) st)
      as (Hc1 & Hrtc1 & Hfin1); try done.
    { intros j Hj. unfold slot. by rewrite lookup_ge_None_2. }
    set (st1 := scan_down (contentPages * 850) ty (length (slots st)) st) in *.
    destruct Hfin1 as [Hw1|Hnone].
    + rewrite priority_loop_within by done. auto.
    + destruct (IH (earlier ++ [ty]) st1) as (Hc2 & Hrtc2 & Hfin2).
      * by rewrite <- app_assoc.
      * done.
      * intros x Hx. rewrite elem_of_app, list_elem_of_singleton.
        intros [Hin|Heq]; [|by eapply Hnone].
        eapply He; [|exact Hin]. eapply removals_subseteq; eauto.
      * split; [done|]. split; [|done]. etrans; eauto.
Qed.

End Trimming.

(** *** The paragraph list *)

Lemma elem_of_indexed (arr : list (option Block)) o i :
  (o, i) ∈ imap (fun i b => (b, i)) arr <-> arr !! i = Some o.
Proof.
  rewrite list_elem_of_lookup. setoid_rewrite list_lookup_imap. split.
  - intros (j & Hj). destruct (arr !! j) as [x|] eqn:E; simplify_eq/=. done.
  - intros Hi. exists i. by rewrite Hi.
Qed.

Lemma NoDup_indexed (arr : list (option Block)) :
  NoDup (imap (fun i b => (b, i)) arr).
Proof.
  apply NoDup_alt. intros i j [o k] Hi Hj.
  rewrite list_lookup_imap in Hi, Hj.
  destruct (arr !! i), (arr !! j); simplify_eq/=. done.
Qed.

Lemma elem_of_paragraphs arr o i :
  (o, i) ∈ paragraphs arr <-> arr !! i = Some o /\ slot_has_type o "p" = true.
Proof.
  unfold paragraphs. rewrite sort_perm, list_elem_of_filter, elem_of_indexed.
  simpl. tauto.
Qed.

Lemma NoDup_paragraphs arr : NoDup (paragraphs arr).
Proof.
  unfold paragraphs. rewrite sort_perm. apply NoDup_filter, NoDup_indexed.
Qed.

(** Heaviest first: the paragraphs sorted all weigh a number, and the
    comparator is the difference of the weights. *)
Lemma paragraphs_sorted arr :
  StronglySorted
    (fun p q : option Block * nat =>
       - comparator_result (getBlockWeight (fst p))
         <= - comparator_result (getBlockWeight (fst q)))
    (paragraphs arr).
Proof.
  unfold paragraphs.
  rewrite (sort_ext _ (fun a b : option Block * nat =>
                         comparator_result (getBlockWeight (fst b))
                         - comparator_result (getBlockWeight (fst a)))).
  - apply (sort_sorted
             (fun p : option Block * nat => - comparator_result (getBlockWeight (fst p)))).
    intros a b. lia.
  - intros x y [Hx _]%list_elem_of_filter [Hy _]%list_elem_of_filter.
    apply slot_has_type_true in Hx as (bx & -> & Tx).
    apply slot_has_type_true in Hy as (by_ & -> & Ty).
    destruct (getBlockWeight_listed bx) as (nx & ->); [by right|].
    destruct (getBlockWeight_listed by_) as (ny & ->); [by right|].
    done.
Qed.

Section TrimmingParagraphs.

Variable contentPages : Z.

(** The loop over the sorted paragraphs removes a heaviest paragraph at
    each turn, and ends within the bound or with no paragraph left. *)
Lemma paragraph_loop_refines ps st :
  consistent st ->
  (forall x, x ∈ nonNull (slots st) -> type x ∉ priorityOrder) ->
  (forall o i, (o, i) ∈ ps <-> slots st !! i = Some o /\ slot_has_type o "p" = true) ->
  NoDup ps ->
  StronglySorted
    (fun p q : option Block * nat =>
       - comparator_result (getBlockWeight (fst p))
         <= - comparator_result (getBlockWeight (fst q)))
    ps ->
  consistent (paragraph_loop (contentPages * 850) ps st) /\
  rtc (removal contentPages) (nonNull (slots st))
      (nonNull (slots (paragraph_loop (contentPages * 850) ps st))) /\
  (within105 (contentPages * 850) (paragraph_loop (contentPages * 850) ps st) = true \/
   forall x, x ∈ nonNull (slots (paragraph_loop (contentPages * 850) ps st)) -> type x <> "p").
Proof.
  revert st. induction ps as [|[o i] rest IH]; intros st Hc Hprio Hps Hnd Hsort; simpl.
  - split; [done|]. split; [done|]. right. intros x Hx Hty.
    apply elem_of_nonNull in Hx as (j & Hj).
    assert ((Some x, j) ∈ ([] : list (option Block * nat))) as Hin.
    { apply Hps. split; [done|]. simpl. by rewrite Hty. }
    by apply elem_of_nil in Hin.
  - destruct (within105 (contentPages * 850) st) eqn:Ew; [auto using rtc_refl|].
    destruct (proj1 (Hps o i) ltac:(left)) as [Hi Hty].
    apply slot_has_type_true in Hty as (b & -> & Hty).
    apply NoDup_cons in Hnd as [Hnotin Hnd].
    apply StronglySorted_inv in Hsort as [Hsort Hmax].
    rewrite Forall_forall in Hmax.
    set (st' := mkTrim (<[i := None]> (slots st))
                       (minus (weightNow st) (getBlockWeight (Some b)))).
    assert (Hc' : consistent st') by (apply consistent_remove; auto).
    destruct (nonNull_split _ _ _ Hi) as [H1 H2].
    assert (Hi' : slots st' !! i = Some None).
    { simpl. apply list_lookup_insert_eq. by eapply lookup_lt_Some. }
    assert (Hps' : forall o' j, (o', j) ∈ rest <->
                     slots st' !! j = Some o' /\ slot_has_type o' "p" = true).
    { intros o' j. split.
      - intros Hin. destruct (proj1 (Hps o' j) ltac:(by right)) as [Hj Hp].
        split; [|done]. simpl.
        destruct (decide (i = j)) as [<-|Hne]; [|by rewrite list_lookup_insert_ne].
        congruence.
      - intros [Hj Hp].
        destruct (decide (i = j)) as [<-|Hne].
        { rewrite Hi' in Hj. injection Hj as <-. done. }
        simpl in Hj. rewrite list_lookup_insert_ne in Hj by done.
        assert ((o', j) ∈ (Some b, i) :: rest) as Hin by (by apply Hps).
        apply elem_of_cons in Hin as [[= -> ->]|Hin]; done. }
    assert (Hstep : removal contentPages (nonNull (slots st)) (nonNull (slots st'))).
    { cbn [slots st']. rewrite H1, H2. apply remove_longest_paragraph.
      - rewrite <- H1. by apply within105_false.
      - by rewrite <- H1.
      - done.
      - rewrite <- H2. intros x Hx Hxt.
        apply (elem_of_nonNull (slots st')) in Hx as (j & Hj).
        assert ((Some x, j) ∈ rest) as Hin.
        { apply Hps'. split; [done|]. simpl. by rewrite Hxt. }
        specialize (Hmax _ Hin). cbn [fst] in Hmax.
        destruct (getBlockWeight_listed x) as (nx & Hnx); [by right|].
        destruct (getBlockWeight_listed b) as (nb & Hnb); [by right|].
        rewrite Hnx, Hnb in *. simpl in *. lia. }
    destruct (IH st' Hc') as (Hc'' & Hrtc & Hfin); try done.
    { intros x Hx. apply Hprio. eapply removal_subseteq; eauto. }
    split; [done|]. split; [|done]. eapply rtc_l; eauto.
Qed.

(** The whole trimming phase: a sequence of specified removals that ends
    within the bound or when nothing removable is left. *)
Lemma trim_refines bs :
  rtc (removal contentPages) bs
      (trim (contentPages * 850) (mkTrim (Some <$> bs) (sumWeights (Some <$> bs)))) /\
  (within5 (trim (contentPages * 850) (mkTrim (Some <$> bs) (sumWeights (Some <$> bs))))
           contentPages \/
   exhausted (trim (contentPages * 850) (mkTrim (Some <$> bs) (sumWeights (Some <$> bs))))).
Proof.
  set (st0 := mkTrim (Some <$> bs) (sumWeights (Some <$> bs))).
  assert (Hc0 : consistent st0) by reflexivity.
  destruct (priority_loop_refines contentPages removalPriority [] st0)
    as (Hc1 & Hrtc1 & Hfin1); [done|done| |].
  { intros x _. apply not_elem_of_nil. }
  unfold trim. 
  set (st1 := priority_loop (contentPages * 850) removalPriority st0) in *.
  simpl in Hrtc1. rewrite nonNull_fmap_Some in Hrtc1.
  destruct (within105 (contentPages * 850) st1) eqn:Ew; simpl.
  - split; [done|]. left. by apply within105_spec.
  - destruct Hfin1 as [?|Hnone]; [congruence|].
    destruct (paragraph_loop_refines (paragraphs (slots st1)) st1)
      as (Hc2 & Hrtc2 & Hfin2); try done.
    { apply elem_of_paragraphs. }
    { apply NoDup_paragraphs. }
    { apply paragraphs_sorted. }
    set (st2 := paragraph_loop (contentPages * 850) (paragraphs (slots st1)) st1) in *.
    split; [etrans; eauto|].
    destruct Hfin2 as [Hw|Hnop]; [left; by apply within105_spec|].
    right. intros x Hx. split; [|by apply Hnop].
    apply Hnone. eapply removals_subseteq; eauto.
Qed.

End TrimmingParagraphs.



(** One block whose type names an inherited member keeps the trimmer from
    running: twenty quotes behind it, 2400 units against a capacity of 850,
    all come back. With a type the table merely does not know, the quotes
    go until the weight is within 105% of capacity. *)
Example inherited_type_stops_trimming :
  blocks (optimizeContentToFit (Some (blk "constructor" :: replicate 20 (blk "quote"))) 1)
    = blk "constructor" :: replicate 20 (blk "quote") /\
  blocks (optimizeContentToFit (Some (blk "chart" :: replicate 20 (blk "quote"))) 1)
    = blk "chart" :: replicate 6 (blk "quote").
Proof. vm_compute. split; reflexivity. Qed.

Example blocks_overweight_trimmed :
  map type (blocks (optimizeContentToFit (Some blocks_overweight) 1)) =
    ["h2"; "h2"; "h2"; "h2"; "h2"; "h2"; "h2"; "h2"; "h3"] /\
  scale (optimizeContentToFit (Some blocks_overweight) 1) = 0.88%Q.
Proof. vm_compute. split; reflexivity. Qed.

(* ===================================================================== *)
(** * Properties of the renderer and of the page-size resolver *)
(* ===================================================================== *)

Import Schema Renderer RenderSpec.

Lemma flat_map_paired {A B} (f : A -> list B) (l : list A) :
  flat_map snd (map (fun c => (c, f c)) l) = flat_map f l.
Proof. induction l as [|x l IH]; simpl; [done|]. by rewrite IH. Qed.

(** [renderElement] on a box, in the order of the source: the children are
    sorted, then rendered one after the other. *)
Lemma renderElement_Box fit id layout children ctx :
  renderElement fit (Box id layout (Some children)) ctx =
    [saveState]
    ++ flat_map
         (fun c => renderElement fit c
                     (createChildContext ctx (computeFrame ctx layout) layout))
         (drawOrder children)
    ++ [restoreState].
Proof.
  destruct children as [|c cs]; [done|].
  unfold drawOrder.
  change (renderElement fit (Box id layout (Some (c :: cs))) ctx) with
    ([saveState]
     ++ flat_map snd
          (sort (fun a b : PDFElement * list Call => zcmp (fst a) (fst b))
             (map (fun c => (c, renderElement fit c
                                  (createChildContext ctx (computeFrame ctx layout) layout)))
                  (c :: cs)))
     ++ [restoreState]).
  rewrite (sort_paired zcmp). by rewrite flat_map_paired.
Qed.

Lemma zcmp_key a b : zcmp a b <= 0 <-> zOf a <= zOf b.
Proof. unfold zcmp. lia. Qed.

Lemma drawOrder_in_z_order els : in_z_order els (drawOrder els).
Proof.
  split.
  - apply (sort_sorted zOf zcmp zcmp_key).
  - intros z. apply (sort_stable zOf zcmp zcmp_key).
Qed.

(** Induction over element trees: a box may assume the property of its
    children. *)
Lemma PDFElement_tree_ind (P : PDFElement -> Prop) :
  (forall id layout, P (Box id layout None)) ->
  (forall id layout children, Forall P children -> P (Box id layout (Some children))) ->
  (forall id layout data, P (Text id layout data)) ->
  (forall id layout img, P (Image id layout img)) ->
  (forall id layout sh, P (Shape id layout sh)) ->
  forall e, P e.
Proof.
  intros HN HB HT HI HS.
  fix IH 1. intros [id layout [children|]|id layout data|id layout img|id layout sh].
  - apply HB. induction children as [|c children IHc]; constructor; [apply IH|exact IHc].
  - apply HN.
  - apply HT.
  - apply HI.
  - apply HS.
Qed.

Lemma drawOrder_perm els : drawOrder els ≡ₚ els.
Proof. apply sort_perm. Qed.

Lemma Forall_drawOrder (P : PDFElement -> Prop) els :
  Forall P els -> Forall P (drawOrder els).
Proof. intros H. by rewrite drawOrder_perm. Qed.

(** Every element is drawn with the children of each box dispatched in
    z-order, whatever the layout context. *)
Lemma renderElement_dispatched fit e :
  forall ctx, dispatched fit e (renderElement fit e ctx).
Proof.
  induction e as [id layout|id layout children IH|id layout data|id layout img
                 |id layout sh] using PDFElement_tree_ind; intros ctx.
  - apply (dispatched_box fit id layout None [] []); [|constructor].
    split; [constructor|done].
  - rewrite renderElement_Box.
    rewrite flat_map_concat_map.
    apply (dispatched_box fit id layout (Some children) (drawOrder children)).
    + apply drawOrder_in_z_order.
    + apply Forall_drawOrder in IH.
      induction IH as [|c cs Hc _ IHcs]; simpl; constructor; [apply Hc|exact IHcs].
  - apply dispatched_text.
  - apply dispatched_image.
  - apply dispatched_shape.
Qed.

Lemma renderPage_dispatched fit dpi page :
  page_dispatched fit dpi page (renderPage fit dpi page).
Proof.
  exists (drawOrder (elements page)),
         (map (fun el => renderElement fit el (mkLayoutContext dpi))
              (drawOrder (elements page))).
  split; [apply drawOrder_in_z_order|]. split.
  - induction (drawOrder (elements page)) as [|e l IH]; simpl; constructor;
      [apply renderElement_dispatched|exact IH].
  - unfold renderPage. rewrite flat_map_concat_map.
    by destruct (resolvePageSize (size page) dpi) as [w h].
Qed.

Lemma in_z_order_unique els order1 order2 :
  in_z_order els order1 -> in_z_order els order2 -> order1 = order2.
Proof.
  intros [Hs1 Hf1] [Hs2 Hf2].
  apply (sorted_stable_unique zOf); [done..|].
  intros z. by rewrite Hf1, Hf2.
Qed.

(** C7. The calls [renderPDFDocument] makes are, between [beginDocument]
    and [endDocument], the drawings of the pages one after the other; on
    every page, and recursively inside every box, the elements are
    dispatched in ascending z-index order, elements of one z-index in
    their document order. There is exactly one such order for any list of
    elements, so the calls are a function of the document alone. Siblings
    with z-indices 3, 1, 2 are drawn in the order 1, 2, 3, on a page as
    well as inside a box, and siblings of equal z-index keep their
    document order. *)
Theorem draw_dispatch_in_z_order
    (fit : Rect -> string -> Rect) (doc : PDFDocument) (dpi : Q) :
  (exists pageDrawings,
     Forall2 (page_dispatched fit dpi) (doc_pages doc) pageDrawings /\
     renderPDFDocument fit doc dpi =
       [beginDocument (metadata doc) (colorProfile doc) dpi]
       ++ concat pageDrawings ++ [endDocument]) /\
  (forall els, exists order, in_z_order els order /\
                             forall order', in_z_order els order' -> order' = order) /\
  drawnTexts (renderPDFDocument fit (one_page siblings_312) dpi)
    = ["one"; "two"; "three"] /\
  drawnTexts (renderPDFDocument fit
                (one_page [Box "box" (mkLayout None None None None None None None)
                             (Some siblings_312)]) dpi)
    = ["one"; "two"; "three"] /\
  drawnTexts (renderPDFDocument fit (one_page siblings_ties) dpi)
    = ["b"; "d"; "a"; "c"].
Proof.
  split.
  { exists (map (renderPage fit dpi) (doc_pages doc)). split.
    - induction (doc_pages doc) as [|page pages IH]; simpl; constructor;
        [apply renderPage_dispatched|exact IH].
    - unfold renderPDFDocument. by rewrite flat_map_concat_map. }
  split.
  { intros els. exists (drawOrder els). split; [apply drawOrder_in_z_order|].
    intros order' H. eapply in_z_order_unique; [exact H|apply drawOrder_in_z_order]. }
  split; [reflexivity|]. split; reflexivity.
Qed.




(* ===================================================================== *)
(** * Properties of the Textora adapter *)
(* ===================================================================== *)

Import Adapter AdapterSpec.

Lemma visitBlock_advance pageIndex w blockIndex block :
  cursorY (visitBlock pageIndex w blockIndex block) = cursorY w + cursorAdvance block.
Proof.
  destruct block as [b|]; simpl; [|lia].
  destruct (String.eqb_spec (type b) "h2") as [->|H1].
  { simpl. unfold lineHeight. lia. }
  rewrite (bool_decide_eq_false_2 _ H1).
  destruct (String.eqb_spec (type b) "p") as [->|H2].
  { simpl. unfold lineHeight. lia. }
  rewrite (bool_decide_eq_false_2 _ H2).
  destruct (String.eqb_spec (type b) "stat") as [->|H3].
  { simpl. lia. }
  rewrite (bool_decide_eq_false_2 _ H3). simpl. lia.
Qed.

Lemma forEach_from_advance pageIndex content i w :
  cursorY (forEach_from (visitBlock pageIndex) i content w) =
    cursorY w + totalAdvance content.
Proof.
  revert i w. induction content as [|b content IH]; intros i w; simpl; [lia|].
  rewrite IH, visitBlock_advance. lia.
Qed.

(** What the callback does with one block. *)
Lemma visitBlock_cases pageIndex w i b :
  (type b = "h2" /\
   exists el, text_at (cursorY w) 30 (default "" (text b)) el /\
     visitBlock pageIndex w i (Some b)
       = mkWalk (walk_elements w ++ [el]) (cursorY w + 2 * lineHeight)) \/
  (type b = "p" /\
   exists el, text_at (cursorY w) 60 (default "" (text b)) el /\
     visitBlock pageIndex w i (Some b)
       = mkWalk (walk_elements w ++ [el]) (cursorY w + 3 * lineHeight)) \/
  (type b = "stat" /\
   exists el, statistic_at (cursorY w) (default "" (value b)) (default "" (label b)) el /\
     visitBlock pageIndex w i (Some b)
       = mkWalk (walk_elements w ++ [el]) (cursorY w + 100)) \/
  (recognized (type b) = false /\ visitBlock pageIndex w i (Some b) = w).
Proof.
  unfold visitBlock.
  destruct (String.eqb_spec (type b) "h2") as [H1|H1].
  { left. split; [done|]. eexists.
    split; [|reflexivity]. by eexists _, _. }
  destruct (String.eqb_spec (type b) "p") as [H2|H2].
  { right. left. split; [done|]. eexists.
    split; [|reflexivity]. by eexists _, _. }
  destruct (String.eqb_spec (type b) "stat") as [H3|H3].
  { right. right. left. split; [done|]. eexists.
    split; [|reflexivity]. by eexists _, _, _, _, _. }
  right. right. right. split; [|done].
  unfold recognized. apply bool_decide_eq_false. tauto.
Qed.

(** The callback, applied to the blocks in order, performs the walk. *)
Lemma forEach_from_performs_walk pageIndex content :
  forall i w,
  exists placed,
    walk_elements (forEach_from (visitBlock pageIndex) i content w)
      = walk_elements w ++ placed /\
    walk (cursorY w) content placed
         (cursorY (forEach_from (visitBlock pageIndex) i content w)).
Proof.
  induction content as [|block content IH]; intros i w; cbn [forEach_from].
  - exists []. split; [by rewrite app_nil_r|constructor].
  - destruct (IH (S i) (visitBlock pageIndex w i block)) as (placed & Hel & Hwalk).
    destruct block as [b|]; [|exists placed; split; [done|by apply walk_missing]].
    destruct (visitBlock_cases pageIndex w i b)
      as [(Ht & el & Hat & Hv)|[(Ht & el & Hat & Hv)|[(Ht & el & Hat & Hv)|(Ht & Hv)]]];
      rewrite Hv in Hel, Hwalk |- *; cbn [walk_elements cursorY] in Hel, Hwalk.
    + exists (el :: placed). split; [by rewrite Hel, <- app_assoc|].
      by eapply walk_heading.
    + exists (el :: placed). split; [by rewrite Hel, <- app_assoc|].
      by eapply walk_paragraph.
    + exists (el :: placed). split; [by rewrite Hel, <- app_assoc|].
      by eapply walk_statistic.
    + exists placed. split; [done|]. by apply walk_unrecognized.
Qed.

Lemma contentPage_walked pageIndex page :
  page_walked page (contentPage pageIndex page).
Proof.
  destruct (forEach_from_performs_walk pageIndex (default [] (content page)) 0
              (mkWalk (titleElements pageIndex page) 130))
    as (placed & Hel & Hwalk).
  exists (titleElements pageIndex page), placed, (cursorY (walkContent pageIndex page)).
  split; [exact Hel|].
  split; [unfold titleElements; destruct (nonempty (title page)); simpl; lia|].
  split; [unfold titleElements; destruct (nonempty (title page)); repeat constructor|].
  split; [exact Hwalk|].
  unfold walkContent. by rewrite forEach_from_advance.
Qed.

Lemma Forall2_imap {A B} (P : A -> B -> Prop) (f : nat -> A -> B) l :
  (forall i x, P x (f i x)) -> Forall2 P l (imap f l).
Proof.
  revert f. induction l as [|x l IH]; intros f H; simpl; constructor; [apply H|].
  apply IH. intros i y. apply H.
Qed.

(** C9. The document [buildPdfDocumentFromTextora] returns has, behind the
    cover, one page for each external page, in order. On each of them the
    elements are an optional heading, drawn at 72 with height 40, followed
    by what the walk over the page's content blocks places, the cursor
    starting at 130 below the heading: a heading block is placed at the
    cursor and moves it two line-heights, a paragraph block is placed at
    the cursor and moves it three line-heights, a statistic block is
    placed at the cursor as a box of two texts and moves it 100 units, more
    than either; every other block, and a missing one, places no element
    and leaves the cursor where it was. *)
Theorem adapter_cursor_walk
    (source : TextoraDoc) (settings : TextoraSettings) (isLandscape : bool) :
  (exists cover contentPages,
     doc_pages (buildPdfDocumentFromTextora source settings isLandscape)
       = cover :: contentPages /\
     Forall2 page_walked (default [] (Adapter.pages source)) contentPages) /\
  (72 + 40 < inject_Z 130)%Q /\
  2 * lineHeight < 3 * lineHeight < 100 /\
  map (fun el => (id_of el, AdapterFacts.top el))
      (flat_map elements
         (drop 1 (doc_pages (buildPdfDocumentFromTextora sample_source settings
                               isLandscape))))
    = [ ("p1-b0-h2", 130%Q); ("p1-b2-p", 170%Q); ("p1-b4-stat-box", 230%Q);
        ("p1-b5-p", 330%Q) ].
Proof.
  split.
  { exists (coverPage source), (imap contentPage (default [] (Adapter.pages source))).
    split; [done|]. apply Forall2_imap. intros i page. apply contentPage_walked. }
  split; [done|]. split; [unfold lineHeight; lia|].
  vm_compute. reflexivity.
Qed.

(* ===================================================================== *)
(** * Properties of the page budget *)
(* ===================================================================== *)

Lemma Qfloor_six_fifths n : Qfloor (inject_Z n * 1.2) = (6 * n) / 5.
Proof.
  assert (H : (inject_Z n * 1.2 == (6 * n) # 5)%Q).
  { unfold Qeq, Qmult, inject_Z. simpl. lia. }
  rewrite H. unfold Qfloor. reflexivity.
Qed.

Lemma Qfloor_quotient a b : 0 < b -> Qfloor (inject_Z a / inject_Z b) = a / b.
Proof.
  intros Hb.
  assert (H : (inject_Z a / inject_Z b == a # Z.to_pos b)%Q).
  { unfold Qeq, Qdiv, Qmult, Qinv, inject_Z. destruct b; simpl; lia. }
  rewrite H. unfold Qfloor. by rewrite Z2Pos.id.
Qed.

(** The section count in integer arithmetic. *)
Lemma sectionCount_eq t :
  Budget.sectionCount (Budget.calculatePageBudget t) =
    Z.min (Z.max 2 ((6 * Budget.contentPages (Budget.calculatePageBudget t)) / 5)) 15.
Proof.
  unfold Budget.calculatePageBudget.
  cbn [Budget.sectionCount Budget.contentPages].
  by rewrite Qfloor_six_fifths.
Qed.

Lemma contentPages_eq t :
  Budget.contentPages (Budget.calculatePageBudget t) =
    Z.max 1 (t - (1 + (if 5 <=? t then 1 else 0))).
Proof. reflexivity. Qed.

Lemma wordsPerSection_eq t :
  Budget.wordsPerSection (Budget.calculatePageBudget t) =
    (280 * Budget.contentPages (Budget.calculatePageBudget t))
    / Budget.sectionCount (Budget.calculatePageBudget t).
Proof.
  pose proof (sectionCount_eq t) as Hs.
  unfold Budget.calculatePageBudget in *.
  cbn [Budget.sectionCount Budget.contentPages Budget.wordsPerSection] in *.
  rewrite Qfloor_quotient by lia. f_equal. lia.
Qed.

(** X1. For every target page count, also zero or negative, the budget has
    at least one content page and between 2 and 15 sections. *)
Theorem budget_bounds (targetPages : Z) :
  1 <= Budget.contentPages (Budget.calculatePageBudget targetPages) /\
  2 <= Budget.sectionCount (Budget.calculatePageBudget targetPages) <= 15.
Proof.
  rewrite sectionCount_eq, contentPages_eq. lia.
Qed.

(** X2. A table of contents is reserved exactly from 5 target pages on. From
    2 target pages on, cover, table of contents and content pages add up
    to the target; below 2 the single content page makes the document
    longer than asked. The content pages never decrease when the target
    grows, and targets 4 and 5 give the same 3 content pages. *)
Theorem budget_page_accounting (targetPages : Z) :
  Budget.hasTOC (Budget.calculatePageBudget targetPages) = (5 <=? targetPages) /\
  Budget.tocPages (Budget.calculatePageBudget targetPages)
    = (if 5 <=? targetPages then 1 else 0) /\
  (2 <= targetPages ->
     1 + Budget.tocPages (Budget.calculatePageBudget targetPages)
       + Budget.contentPages (Budget.calculatePageBudget targetPages) = targetPages) /\
  (targetPages < 2 ->
     Budget.contentPages (Budget.calculatePageBudget targetPages) = 1) /\
  (forall t', targetPages <= t' ->
     Budget.contentPages (Budget.calculatePageBudget targetPages)
       <= Budget.contentPages (Budget.calculatePageBudget t')) /\
  Budget.contentPages (Budget.calculatePageBudget 4)
    = Budget.contentPages (Budget.calculatePageBudget 5).
Proof.
  split; [done|]. split; [done|].
  assert (Htoc : Budget.tocPages (Budget.calculatePageBudget targetPages)
                 = if 5 <=? targetPages then 1 else 0) by done.
  rewrite Htoc, contentPages_eq.
  split; [|split; [|split; [|done]]].
  - intros H. destruct (Z.leb_spec 5 targetPages); lia.
  - intros H. destruct (Z.leb_spec 5 targetPages); lia.
  - intros t' H. rewrite contentPages_eq.
    destruct (Z.leb_spec 5 targetPages), (Z.leb_spec 5 t'); lia.
Qed.

Lemma budget_page_accounting_witness :
  2 <= 6 /\ -3 < 2 /\
  1 + Budget.tocPages (Budget.calculatePageBudget 6)
    + Budget.contentPages (Budget.calculatePageBudget 6) = 6 /\
  Budget.contentPages (Budget.calculatePageBudget (-3)) = 1.
Proof.
  split; [lia|]. split; [lia|]. split.
  - destruct (budget_page_accounting 6) as (_ & _ & H & _). apply H. lia.
  - destruct (budget_page_accounting (-3)) as (_ & _ & _ & H & _). apply H. lia.
Defined.

(** X3. The word budget is 280 words per content page; the sections'
    shares never add up to more than it and miss it by less than one word
    per section; every section gets at least 140 words. *)
Theorem budget_words (targetPages : Z) :
  Budget.totalWordBudget (Budget.calculatePageBudget targetPages)
    = 280 * Budget.contentPages (Budget.calculatePageBudget targetPages) /\
  Budget.wordsPerSection (Budget.calculatePageBudget targetPages)
    * Budget.sectionCount (Budget.calculatePageBudget targetPages)
    <= Budget.totalWordBudget (Budget.calculatePageBudget targetPages) /\
  Budget.totalWordBudget (Budget.calculatePageBudget targetPages)
    < (Budget.wordsPerSection (Budget.calculatePageBudget targetPages) + 1)
      * Budget.sectionCount (Budget.calculatePageBudget targetPages) /\
  140 <= Budget.wordsPerSection (Budget.calculatePageBudget targetPages).
Proof.
  assert (Ht : Budget.totalWordBudget (Budget.calculatePageBudget targetPages)
               = 280 * Budget.contentPages (Budget.calculatePageBudget targetPages)).
  { unfold Budget.calculatePageBudget. simpl. lia. }
  rewrite Ht, wordsPerSection_eq.
  pose proof (sectionCount_eq targetPages) as Hs.
  pose proof (contentPages_eq targetPages) as Hc.
  set (n := Budget.contentPages (Budget.calculatePageBudget targetPages)) in *.
  set (k := Budget.sectionCount (Budget.calculatePageBudget targetPages)) in *.
  assert (Hn : 1 <= n) by lia.
  assert (Hk : 2 <= k <= 15) by lia.
  pose proof (Z.div_mod (280 * n) k ltac:(lia)) as Hdm.
  pose proof (Z.mod_pos_bound (280 * n) k ltac:(lia)) as Hmod.
  split; [done|]. split; [nia|]. split; [nia|].
  apply Z.div_le_lower_bound; [lia|].
  pose proof (Z.div_mod (6 * n) 5 ltac:(lia)) as Hdm6.
  pose proof (Z.mod_pos_bound (6 * n) 5 ltac:(lia)) as Hmod6.
  lia.
Qed.

(* ===================================================================== *)
(** * Properties of the block weights *)
(* ===================================================================== *)

Import FitFacts.








Lemma Qceiling_four_fifths n : Qceiling (inject_Z n * 0.8 + 30) = (4 * n + 154) / 5.
Proof.
  assert (H : (- (inject_Z n * 0.8 + 30) == (- (4 * n + 150)) # 5)%Q).
  { unfold Qeq, Qopp, Qplus, Qmult, inject_Z. simpl. lia. }
  unfold Qceiling. rewrite H. unfold Qfloor.
  change (Z.pos 5) with 5. Z.div_mod_to_equations. lia.
Qed.

Lemma weights_lookup b w :
  weights b !! type b = Some w ->
  (type b = "p" /\ w = (4 * countWords (text_or_empty b) + 154) / 5) \/
  (type b <> "p" /\ 70 <= w <= 320).
Proof.
  intros E. apply elem_of_list_to_map_2 in E.
  repeat (apply elem_of_cons in E as [E|E];
          [injection E as Ht ->; first [ left; split; [exact Ht|apply Qceiling_four_fifths]
                                       | right; split; [rewrite Ht; discriminate|lia] ] |]).
  by apply elem_of_nil in E.
Qed.

Lemma weights_inherited b :
  inherited (type b) = true -> weights b !! type b = None.
Proof.
  intros Hi. apply bool_decide_eq_true in Hi.
  apply not_elem_of_list_to_map. cbn [fmap list_fmap fst].
  unfold Object_prototype in Hi.
  repeat (apply elem_of_cons in Hi as [->|Hi];
          [match goal with
           | |- ~ ?P => apply (bool_decide_eq_false_1 P); vm_compute; reflexivity
           end|]).
  by apply elem_of_nil in Hi.
Qed.

(** X4. A block whose type names no inherited member weighs a number of
    units, at least 30; when it is no paragraph, between 70 and 320, and 80
    when its type is no key of the table. A block whose type names an
    inherited member ([constructor], [toString], ...) has no number for a
    weight: the member itself is returned. An empty slot weighs nothing. *)
Theorem block_weight_bounds (b : Block) :
  (inherited (type b) = false ->
   exists n, getBlockWeight (Some b) = Units n /\ 30 <= n /\
             (type b <> "p" -> 70 <= n <= 320) /\
             (weights b !! type b = None -> n = 80)) /\
  (inherited (type b) = true -> getBlockWeight (Some b) = NotANumber) /\
  getBlockWeight None = Units 0.
Proof.
  pose proof (countWords_nonneg (text_or_empty b)) as Hn.
  split; [|split; [|done]].
  - intros Hi. unfold getBlockWeight. rewrite Hi.
    destruct (weights b !! type b) as [w|] eqn:E.
    + apply weights_lookup in E as [[Hp ->]|[Hp Hw]].
      * assert (30 <= (4 * countWords (text_or_empty b) + 154) / 5)
          by (Z.div_mod_to_equations; lia).
        destruct (Z.eqb_spec ((4 * countWords (text_or_empty b) + 154) / 5) 0); [lia|].
        eexists. split; [done|]. repeat split; try done; lia.
      * destruct (Z.eqb_spec w 0); [lia|].
        eexists. split; [done|]. repeat split; try done; lia.
    + exists 80. repeat split; try done; lia.
  - intros Hi. unfold getBlockWeight. by rewrite (weights_inherited b Hi), Hi.
Qed.

Lemma block_weight_bounds_witness :
  inherited (type (blk "chart")) = false /\
  inherited (type (blk "toString")) = true /\
  (exists n, getBlockWeight (Some (blk "chart")) = Units n /\ 30 <= n /\
             (type (blk "chart") <> "p" -> 70 <= n <= 320) /\
             (weights (blk "chart") !! type (blk "chart") = None -> n = 80)) /\
  getBlockWeight (Some (blk "toString")) = NotANumber.
Proof.
  split; [reflexivity|]. split; [reflexivity|]. split.
  - destruct (block_weight_bounds (blk "chart")) as (H & _). apply H. reflexivity.
  - destruct (block_weight_bounds (blk "toString")) as (_ & H & _). apply H. reflexivity.
Defined.

Lemma paragraph_weight b :
  type b = "p" ->
  getBlockWeight (Some b) = Units ((4 * countWords (text_or_empty b) + 154) / 5).
Proof.
  intros Hp. pose proof (countWords_nonneg (text_or_empty b)) as Hn.
  unfold getBlockWeight.
  destruct (weights b !! type b) as [w|] eqn:E.
  - apply weights_lookup in E as [[_ ->]|[Hne _]]; [|done].
    destruct (Z.eqb_spec ((4 * countWords (text_or_empty b) + 154) / 5) 0); [|done].
    exfalso. revert e. Z.div_mod_to_equations. lia.
  - exfalso. apply not_elem_of_list_to_map in E. apply E.
    rewrite Hp. cbn [fmap list_fmap fst]. do 2 right. left.
Qed.

(** X5. A paragraph of [n] words weighs 30 plus four fifths of [n]
    rounded up, that is [(4 n + 154) / 5] in integer division; a paragraph
    with at least as many words weighs at least as much. *)
Theorem paragraph_weight_formula_monotone (b1 b2 : Block) :
  type b1 = "p" -> type b2 = "p" ->
  getBlockWeight (Some b1) = Units ((4 * countWords (text_or_empty b1) + 154) / 5) /\
  (countWords (text_or_empty b1) <= countWords (text_or_empty b2) ->
   exists w1 w2, getBlockWeight (Some b1) = Units w1 /\
                 getBlockWeight (Some b2) = Units w2 /\ w1 <= w2).
Proof.
  intros H1 H2. split; [by apply paragraph_weight|].
  intros Hle. rewrite !paragraph_weight by done.
  eexists _, _. split; [done|]. split; [done|].
  apply Z.div_le_mono; lia.
Qed.

Lemma paragraph_weight_formula_monotone_witness :
  type (para "a b c") = "p" /\ type (para "a b c d e f g") = "p" /\
  countWords (text_or_empty (para "a b c"))
    <= countWords (text_or_empty (para "a b c d e f g")) /\
  getBlockWeight (Some (para "a b c")) = Units ((4 * 3 + 154) / 5) /\
  exists w1 w2, getBlockWeight (Some (para "a b c")) = Units w1 /\
                getBlockWeight (Some (para "a b c d e f g")) = Units w2 /\ w1 <= w2.
Proof.
  assert (H : countWords (text_or_empty (para "a b c"))
              <= countWords (text_or_empty (para "a b c d e f g")))
    by (vm_compute; discriminate).
  split; [reflexivity|]. split; [reflexivity|]. split; [exact H|].
  destruct (paragraph_weight_formula_monotone (para "a b c") (para "a b c d e f g"))
    as [Hf Hm]; [reflexivity..|].
  split; [exact Hf|exact (Hm H)].
Defined.

(** Words are counted the way [trim] and [\s] see white space. *)
Example countWords_examples :
  countWords "one two  three" = 3 /\
  countWords ("  tab" +:+ bytes [9%nat] +:+ "and" +:+ bytes [10%nat; 13%nat] +:+ "lines ") = 3 /\
  countWords ("no" +:+ bytes [194%nat; 160%nat] +:+ "break") = 2 /\
  countWords ("em" +:+ bytes [226%nat; 128%nat; 131%nat] +:+ "space") = 2 /\
  countWords ("line" +:+ bytes [226%nat; 128%nat; 168%nat] +:+ "separator") = 2 /\
  countWords ("wide" +:+ bytes [227%nat; 128%nat; 128%nat] +:+ "space") = 2 /\
  countWords ("dash" +:+ bytes [226%nat; 128%nat; 148%nat] +:+ "joined") = 1 /\
  countWords (bytes [195%nat; 160%nat] +:+ " la carte") = 3 /\
  countWords "" = 0.
Proof. vm_compute. repeat split. Qed.



(* ===================================================================== *)
(** * Further properties of the fit pass *)
(* ===================================================================== *)

Import FitFacts.

Lemma removal_sublist n l l' : removal n l l' -> sublist l' l.
Proof.
  intros [pre b post ? ? _ _ _ _|pre b post _ _ _ _];
    (apply sublist_app; [done|by apply sublist_cons]).
Qed.

Lemma removals_sublist n l l' : rtc (removal n) l l' -> sublist l' l.
Proof.
  induction 1 as [|l1 l2 l3 H12 _ IH]; [done|].
  etrans; [exact IH|]. by eapply removal_sublist.
Qed.

Lemma removal_trimmable n l l' :
  removal n l l' ->
  filter (fun b => ~ trimmable b) l' = filter (fun b => ~ trimmable b) l.
Proof.
  intros [pre b post earlier later _ Hprio _ _|pre b post _ _ Hp _];
    rewrite !filter_app, filter_cons_False; try done.
  - intros Hn. apply Hn. left.
    change removalPriority with priorityOrder. rewrite Hprio. set_solver.
  - intros Hn. apply Hn. by right.
Qed.

Lemma removals_trimmable n l l' :
  rtc (removal n) l l' ->
  filter (fun b => ~ trimmable b) l' = filter (fun b => ~ trimmable b) l.
Proof.
  induction 1 as [|l1 l2 l3 H12 _ IH]; [done|].
  rewrite IH. by eapply removal_trimmable.
Qed.

(** A part of a sequence that weighs a number weighs a number, and no
    more. *)
Lemma totalWeight_sublist l l' w :
  sublist l' l -> totalWeight l = Units w ->
  exists w', totalWeight l' = Units w' /\ w' <= w.
Proof.
  intros H. revert w.
  induction H as [|x l1 l2 _ IH|x l1 l2 _ IH]; intros w; rewrite ?totalWeight_cons.
  - intros [= <-]. by exists 0.
  - intros (a & c & Ha & Hc & ->)%plus_Units.
    destruct (IH _ Hc) as (w' & -> & Hle). rewrite Ha. exists (a + w'). split; [done|lia].
  - intros (a & c & Ha & Hc & ->)%plus_Units.
    destruct (IH _ Hc) as (w' & -> & Hle). exists w'. split; [done|].
    apply (getBlockWeight_nonneg (Some x)) in Ha. lia.
Qed.

Lemma no_more_refl a : no_more a a.
Proof. destruct a; simpl; [lia|done]. Qed.

(** The blocks of the fit pass are reached from the input by removals. *)
Lemma fit_blocks_removals bs n :
  rtc (removal n) bs (blocks (optimizeContentToFit (Some bs) n)).
Proof.
  rewrite fit_blocks. destruct (over110 _ _); [apply trim_refines|done].
Qed.

(** X7. The fit pass only removes: the returned blocks are a subsequence of
    the input, in the input's order, and neither their number nor their
    total weight exceeds the input's. *)
Theorem optimizeContentToFit_subsequence (bs : list Block) (contentPages : Z) :
  sublist (blocks (optimizeContentToFit (Some bs) contentPages)) bs /\
  (length (blocks (optimizeContentToFit (Some bs) contentPages)) <= length bs)%nat /\
  no_more (totalWeight (blocks (optimizeContentToFit (Some bs) contentPages)))
          (totalWeight bs).
Proof.
  pose proof (removals_sublist _ _ _ (fit_blocks_removals bs contentPages)) as H.
  split; [done|]. split; [by apply sublist_length|].
  destruct (totalWeight bs) as [w|] eqn:Hw.
  - destruct (totalWeight_sublist _ _ _ H Hw) as (w' & -> & Hle). done.
  - assert (Hsame : blocks (optimizeContentToFit (Some bs) contentPages) = bs).
    { rewrite fit_blocks. destruct (over110 _ _) eqn:E; [|done].
      apply over110_spec in E. destruct E as (w & Hw' & _). congruence. }
    rewrite Hsame, Hw. done.
Qed.

(** X8. Headings, tables, case studies and every other block that is
    neither a paragraph nor of one of the five listed types survive the fit
    pass, all of them and in their order. *)
Theorem optimizeContentToFit_keeps_untrimmable (bs : list Block) (contentPages : Z) :
  filter (fun b => ~ trimmable b) (blocks (optimizeContentToFit (Some bs) contentPages))
    = filter (fun b => ~ trimmable b) bs.
Proof. apply (removals_trimmable contentPages), fit_blocks_removals. Qed.

(** X9. For a page count that is not negative, the weight of the
    returned blocks is a number exceeding the capacity by more than 10%
    only when nothing trimmable is left among them. When the weight of the
    input is no number, because the type of one of its blocks names an
    inherited member, nothing is trimmed at all, however much the other
    blocks weigh, and the scale is 1. *)
Theorem optimizeContentToFit_residual_overflow (bs : list Block) (contentPages : Z) :
  (0 <= contentPages ->
   exceedsBy10 (blocks (optimizeContentToFit (Some bs) contentPages)) contentPages ->
   forall b, b ∈ blocks (optimizeContentToFit (Some bs) contentPages) -> ~ trimmable b) /\
  (forall b, b ∈ bs -> getBlockWeight (Some b) = NotANumber ->
   blocks (optimizeContentToFit (Some bs) contentPages) = bs /\
   scale (optimizeContentToFit (Some bs) contentPages) = 1%Q).
Proof.
  split.
  - intros Hn. rewrite fit_blocks.
    destruct (over110 _ _) eqn:E.
    + destruct (trim_refines contentPages bs) as [_ [Hw|Hex]].
      * intros Hover. exfalso. unfold exceedsBy10, within5, capacityOf in *.
        destruct Hw as (w & Hw & Hle). destruct Hover as (w' & Hw' & Hgt).
        rewrite Hw in Hw'. injection Hw' as <-.
        assert (0 <= inject_Z (contentPages * 850))%Q.
        { change 0%Q with (inject_Z 0). rewrite <- Zle_Qle. lia. }
        lra.
      * intros _ b Hb [Hin|Hp]; destruct (Hex b Hb) as [H1 H2]; [|done].
        by apply H1.
    + intros Hover. exfalso. apply over110_spec in Hover. congruence.
  - intros b Hb Hnan.
    pose proof (totalWeight_inherited bs b Hb Hnan) as Htot.
    destruct bs as [|b0 bs]; [by apply elem_of_nil in Hb|].
    destruct (scale_is_one_without_number b0 bs contentPages Htot) as (H1 & H2). done.
Qed.

Lemma optimizeContentToFit_residual_overflow_witness :
  0 <= 1 /\
  exceedsBy10 (blocks (optimizeContentToFit
                         (Some (five_blocks ++ [blk "quote"; para "x"])) 1)) 1 /\
  forall b, b ∈ blocks (optimizeContentToFit
                          (Some (five_blocks ++ [blk "quote"; para "x"])) 1) ->
            ~ trimmable b.
Proof.
  assert (H : exceedsBy10 (blocks (optimizeContentToFit
                 (Some (five_blocks ++ [blk "quote"; para "x"])) 1)) 1).
  { exists 1100. split; vm_compute; reflexivity. }
  split; [lia|]. split; [exact H|].
  destruct (optimizeContentToFit_residual_overflow
              (five_blocks ++ [blk "quote"; para "x"]) 1) as [Hres _].
  apply Hres; [lia|exact H].
Defined.

(* ===================================================================== *)
(** * Further properties of the pagination pass *)
(* ===================================================================== *)

Lemma pageWeight_app g1 g2 :
  pageWeight (g1 ++ g2) = plus (pageWeight g1) (pageWeight g2).
Proof. apply totalWeight_app. Qed.

Lemma pageWeight_singleton b : pageWeight [b] = getBlockWeight (Some b).
Proof. unfold pageWeight. cbn [foldr]. apply plus_0_r. Qed.

Lemma pageWeight_cons b g :
  pageWeight (b :: g) = plus (getBlockWeight (Some b)) (pageWeight g).
Proof. reflexivity. Qed.

Lemma pageWeight_nonneg g n : pageWeight g = Units n -> 0 <= n.
Proof. apply totalWeight_nonneg. Qed.

(** A lighter page exceeds no capacity a heavier one respects. *)
Lemma gt_ofZ_mono x y cap :
  y <= x -> JS.gt (ofZ x) cap = false -> JS.gt (ofZ y) cap = false.
Proof.
  intros Hle. destruct cap as [q| | |]; simpl; try done.
  rewrite !Qltb_false. intros H. rewrite Zle_Qle in Hle. lra.
Qed.

Section GreedyLoop.

Variable contentPages : Z.
Variable cap : num.

Lemma greedy_inv_step st b :
  greedy_inv contentPages cap st ->
  greedy_inv contentPages cap (paginate_step contentPages cap st b).
Proof.
  intros (Hw & Hall & Hopen). unfold paginate_step, greedy_inv.
  destruct (amount_gt _ _) eqn:Egt;
    [destruct (Z.ltb_spec (Z.of_nat (length (Fitting.pages st))) (contentPages - 1))
       as [Hlt|Hge]|];
    cbn [andb Fitting.pages Fitting.currentPage Fitting.currentWeight].
  - destruct (plus (currentWeight st) (getBlockWeight (Some b))) as [m|] eqn:Em;
      [|done].
    apply plus_Units in Em as (x & y & Hx & Hy & ->).
    split; [by rewrite pageWeight_singleton|]. split.
    + apply Forall_app. split; [done|]. constructor; [|constructor].
      exists x. split; [by rewrite <- Hw|]. by apply Hopen.
    + intros _ n _. right. simpl. lia.
  - split; [by rewrite pageWeight_app, pageWeight_singleton, Hw|].
    split; [done|]. intros Hlt. lia.
  - split; [by rewrite pageWeight_app, pageWeight_singleton, Hw|].
    split; [done|]. intros _ n Hn. left. by rewrite Hn in Egt.
Qed.

Lemma greedy_inv_fold bs st :
  greedy_inv contentPages cap st ->
  greedy_inv contentPages cap (fold_left (paginate_step contentPages cap) bs st).
Proof.
  revert st. induction bs as [|b bs IH]; intros st H; simpl; [done|].
  by apply IH, greedy_inv_step.
Qed.

(** Without room for another page the loop only appends. *)
Lemma fold_step_last_page bs st :
  contentPages - 1 <= Z.of_nat (length (Fitting.pages st)) ->
  fold_left (paginate_step contentPages cap) bs st =
    mkPag (Fitting.pages st) (currentPage st ++ bs)
          (plus (currentWeight st) (pageWeight bs)).
Proof.
  revert st. induction bs as [|b bs IH]; intros st Hge.
  - cbn [fold_left]. change (pageWeight []) with (Units 0).
    rewrite app_nil_r, plus_0_r. by destruct st.
  - cbn [fold_left]. unfold paginate_step at 2.
    destruct (Z.ltb_spec (Z.of_nat (length (Fitting.pages st))) (contentPages - 1)); [lia|].
    rewrite andb_false_r. rewrite IH by done.
    cbn [Fitting.pages Fitting.currentPage Fitting.currentWeight].
    by rewrite <- app_assoc, pageWeight_cons, plus_assoc.
Qed.

(** While every beginning of what is left still fits, the loop only
    appends. *)
Lemma fold_step_fits bs st :
  (forall p rest, bs = p ++ rest ->
     amount_gt (plus (currentWeight st) (pageWeight p)) cap = false) ->
  fold_left (paginate_step contentPages cap) bs st =
    mkPag (Fitting.pages st) (currentPage st ++ bs)
          (plus (currentWeight st) (pageWeight bs)).
Proof.
  revert st. induction bs as [|b bs IH]; intros st Hfit.
  - cbn [fold_left]. change (pageWeight []) with (Units 0).
    rewrite app_nil_r, plus_0_r. by destruct st.
  - cbn [fold_left]. unfold paginate_step at 2.
    pose proof (Hfit [b] bs eq_refl) as Hb. rewrite pageWeight_singleton in Hb.
    rewrite Hb. cbn [andb]. rewrite IH;
      cbn [Fitting.pages Fitting.currentPage Fitting.currentWeight].
    + by rewrite <- app_assoc, pageWeight_cons, plus_assoc.
    + intros p rest ->. specialize (Hfit (b :: p) rest eq_refl).
      by rewrite pageWeight_cons, plus_assoc in Hfit.
Qed.

End GreedyLoop.

Lemma greedyPages_single b bs n scale :
  fold_left (paginate_step n (JS.div 850 scale)) (b :: bs) (mkPag [] [] (Units 0))
    = mkPag [] (b :: bs) (plus (Units 0) (pageWeight (b :: bs))) ->
  greedyPages (b :: bs) n scale = [b :: bs].
Proof. intros H. unfold greedyPages. rewrite H. reflexivity. Qed.

(** X10. Every page the greedy loop closes, that is every group but the
    last one it produces, has a number for a weight and respects the page
    capacity [850 / scale] unless it holds a single block (or none). *)
Theorem paginate_closed_pages_fit
    (bs : list Block) (contentPages : Z) (scale : Q) (i : nat) (g : list Block) :
  greedyPages bs contentPages scale !! i = Some g ->
  (S i < length (greedyPages bs contentPages scale))%nat ->
  fits_or_single (JS.div 850 scale) g.
Proof.
  unfold greedyPages.
  pose proof (greedy_inv_fold contentPages (JS.div 850 scale) bs
                (mkPag [] [] (Units 0))) as H.
  unfold greedy_inv in H.
  destruct H as (_ & Hall & _).
  { split; [done|]. split; [constructor|]. intros _ n _. right. simpl. lia. }
  set (st := fold_left _ _ _) in *.
  rewrite Forall_lookup in Hall.
  destruct (0 <? length (currentPage st))%nat.
  - rewrite length_app. simpl. intros Hi Hlt.
    rewrite lookup_app_l in Hi by lia. by eapply Hall.
  - intros Hi _. by eapply Hall.
Qed.

Lemma paginate_closed_pages_fit_witness :
  greedyPages five_blocks 3 1 !! 0%nat
    = Some [blk "h2"; blk "table"; blk "table"; blk "table"] /\
  (1 < length (greedyPages five_blocks 3 1))%nat /\
  fits_or_single (JS.div 850 1) [blk "h2"; blk "table"; blk "table"; blk "table"].
Proof.
  split; [reflexivity|]. split; [vm_compute; lia|].
  apply (paginate_closed_pages_fit five_blocks 3 1 0); [reflexivity|vm_compute; lia].
Defined.

(** The beginning of a sequence that weighs a number weighs a number, and
    no more. *)
Lemma pageWeight_prefix p rest w :
  pageWeight (p ++ rest) = Units w -> exists x, pageWeight p = Units x /\ x <= w.
Proof.
  rewrite pageWeight_app. intros (x & y & Hx & Hy & ->)%plus_Units.
  exists x. split; [done|]. apply pageWeight_nonneg in Hy. lia.
Qed.

(** X11. When every beginning of the block list fits the page capacity,
    the list forms the first page unsplit and the remaining
    [contentPages - 1] pages are filler. That is so in particular when the
    whole list weighs a number that fits the capacity. *)
Theorem paginate_fitting_content_one_page
    (bs : list Block) (contentPages : Z) (scale : Q) :
  bs <> [] -> 1 <= contentPages ->
  ((forall p rest, bs = p ++ rest ->
      amount_gt (pageWeight p) (JS.div 850 scale) = false) ->
   paginateContent (Some bs) contentPages scale
     = Ok (bs :: replicate (Z.to_nat (contentPages - 1)) placeholderContent)) /\
  (forall w, pageWeight bs = Units w ->
   JS.gt (ofZ w) (JS.div 850 scale) = false ->
   paginateContent (Some bs) contentPages scale
     = Ok (bs :: replicate (Z.to_nat (contentPages - 1)) placeholderContent)).
Proof.
  intros Hne Hn.
  assert (Hfirst :
    (forall p rest, bs = p ++ rest ->
       amount_gt (pageWeight p) (JS.div 850 scale) = false) ->
    paginateContent (Some bs) contentPages scale
      = Ok (bs :: replicate (Z.to_nat (contentPages - 1)) placeholderContent)).
  { intros Hfit. destruct bs as [|b bs]; [done|].
    rewrite paginate_nonempty_shape by done.
    rewrite greedyPages_single; [simpl; do 3 f_equal; lia|].
    rewrite fold_step_fits; [done|].
    intros p rest Hp. cbn [Fitting.currentWeight]. rewrite plus_0_l. by eapply Hfit. }
  split; [exact Hfirst|].
  intros w Hw Hfit. apply Hfirst. intros p rest ->.
  destruct (pageWeight_prefix _ _ _ Hw) as (x & -> & Hle).
  simpl. by eapply gt_ofZ_mono.
Qed.

Lemma paginate_fitting_content_one_page_witness :
  [blk "h2"; blk "table"] <> [] /\ 1 <= 3 /\
  pageWeight [blk "h2"; blk "table"] = Units 350 /\
  JS.gt (ofZ 350) (JS.div 850 1) = false /\
  paginateContent (Some [blk "h2"; blk "table"]) 3 1
    = Ok ([blk "h2"; blk "table"] :: replicate (Z.to_nat (3 - 1)) placeholderContent).
Proof.
  split; [discriminate|]. split; [lia|]. split; [reflexivity|]. split; [reflexivity|].
  destruct (paginate_fitting_content_one_page [blk "h2"; blk "table"] 3 1)
    as [_ H]; [discriminate|lia|].
  apply (H 350); reflexivity.
Defined.

(** X12. With a single content page nothing is split and nothing is
    dropped, whatever the weight: the one page holds every block. *)
Theorem paginate_single_page_holds_all (bs : list Block) (scale : Q) :
  bs <> [] -> paginateContent (Some bs) 1 scale = Ok [bs].
Proof.
  intros Hne. destruct bs as [|b bs]; [done|].
  rewrite paginate_nonempty_shape by done.
  rewrite greedyPages_single; [done|].
  by rewrite fold_step_last_page.
Qed.

Lemma paginate_single_page_holds_all_witness :
  blocks_overweight <> [] /\
  paginateContent (Some blocks_overweight) 1 (112 # 100) = Ok [blocks_overweight].
Proof.
  split; [discriminate|].
  apply (paginate_single_page_holds_all blocks_overweight (112 # 100)). discriminate.
Defined.

(** X13. A page count below 1 loses the content: a non-empty block list
    gives no page at all, and an empty one gives no page for 0 and raises
    [RangeError] for a negative count. *)
Theorem paginate_nonpositive_page_count
    (bs : list Block) (contentPages : Z) (scale : Q) :
  contentPages <= 0 ->
  (bs <> [] -> paginateContent (Some bs) contentPages scale = Ok []) /\
  (contentPages < 0 -> paginateContent (Some []) contentPages scale = RangeError) /\
  (contentPages = 0 -> paginateContent (Some []) contentPages scale = Ok []).
Proof.
  intros Hn. split; [|split].
  - intros Hne. destruct bs as [|b bs]; [done|].
    unfold paginateContent. f_equal.
    rewrite greedyPages_single by (by rewrite fold_step_last_page by (simpl; lia)).
    rewrite pad_spec. unfold slice0.
    set (padded := [b :: bs] ++ _).
    destruct (Z.ltb_spec contentPages 0).
    + assert (length padded = 1%nat) as ->.
      { unfold padded. rewrite length_app, length_replicate. simpl. lia. }
      assert (Z.to_nat (Z.max (Z.of_nat 1 + contentPages) 0) = O) as -> by lia.
      done.
    + assert (Z.to_nat contentPages = O) as -> by lia. done.
  - intros Hlt. unfold paginateContent, Array_fill.
    by destruct (Z.ltb_spec contentPages 0); [|lia].
  - intros ->. done.
Qed.

Lemma paginate_nonpositive_page_count_witness :
  -2 <= 0 /\ five_blocks <> [] /\ -2 < 0 /\
  paginateContent (Some five_blocks) (-2) 1 = Ok [] /\
  paginateContent (Some []) (-2) 1 = RangeError.
Proof.
  split; [lia|]. split; [discriminate|]. split; [lia|].
  destruct (paginate_nonpositive_page_count five_blocks (-2) 1) as (H1 & H2 & _); [lia|].
  split; [apply H1; discriminate|apply H2; lia].
Defined.

(* ===================================================================== *)
(** * Properties of the generator's use of the fit engine *)
(* ===================================================================== *)

Lemma elem_of_concat_groups {A} (groups : list (list A)) (x : A) :
  x ∈ concat groups <-> exists g, g ∈ groups /\ x ∈ g.
Proof.
  induction groups as [|h groups IH]; simpl.
  - split; [by intros ?%elem_of_nil|by intros (? & ?%elem_of_nil & _)].
  - rewrite elem_of_app, IH. split.
    + intros [Hx|(g & Hg & Hx)]; [exists h|exists g]; split; try done;
        [left|by right].
    + intros (g & Hg & Hx). apply elem_of_cons in Hg as [->|Hg]; [by left|].
      right. eauto.
Qed.

Lemma paginate_shape out n sc :
  out <> [] -> 1 <= n ->
  paginateContent (Some out) n sc =
    Ok (greedyPages out n sc ++
        replicate (Z.to_nat (n - Z.of_nat (length (greedyPages out n sc))))
                  placeholderContent).
Proof. intros Hne Hn. destruct out; [done|]. by apply paginate_nonempty_shape. Qed.

(** X14. Whatever the configured number of pages and whatever blocks were
    generated, fitting and then paginating returns, without raising,
    exactly as many pages as the budget has content pages; every block on
    them comes from the generated blocks or from the filler page, and every
    generated block that is not trimmable is on one of them. *)
Theorem fitAndPaginate_exact_and_sound (allBlocks : list Block) (configPages : Z) :
  exists pages,
    Generator.fitAndPaginate allBlocks configPages = Ok pages /\
    Z.of_nat (length pages)
      = Budget.contentPages (Budget.calculatePageBudget configPages) /\
    (forall g b, g ∈ pages -> b ∈ g -> b ∈ allBlocks \/ b ∈ placeholderContent) /\
    (forall b, b ∈ allBlocks -> ~ trimmable b -> exists g, g ∈ pages /\ b ∈ g).
Proof.
  unfold Generator.fitAndPaginate.
  set (n := Budget.contentPages (Budget.calculatePageBudget configPages)).
  assert (Hn : 1 <= n) by (unfold n; rewrite contentPages_eq; lia).
  set (fit := optimizeContentToFit (Some allBlocks) n).
  pose proof (removals_sublist _ _ _ (fit_blocks_removals allBlocks n)) as Hsub.
  pose proof (removals_trimmable _ _ _ (fit_blocks_removals allBlocks n)) as Hkeep.
  fold fit in Hsub, Hkeep.
  destruct (blocks fit) as [|b0 rest] eqn:Eb.
  - exists (replicate (Z.to_nat n) []).
    split; [unfold paginateContent, Array_fill;
            by destruct (Z.ltb_spec n 0); [lia|]|].
    split; [rewrite length_replicate; lia|]. split.
    + intros g b Hg Hb. apply elem_of_replicate in Hg as [-> _].
      by apply elem_of_nil in Hb.
    + intros b Hb Hnt. exfalso.
      assert (b ∈ filter (fun b => ~ trimmable b) allBlocks) as Hin
        by (by apply list_elem_of_filter).
      rewrite <- Hkeep in Hin. by apply elem_of_nil in Hin.
  - rewrite <- Eb in *.
    assert (Hne : blocks fit <> []) by (rewrite Eb; discriminate).
    set (out := blocks fit) in *.
    pose proof (greedyPages_length out n (scale fit) Hn) as Hlen.
    pose proof (greedyPages_concat out n (scale fit)) as Hcat.
    eexists. split; [by apply paginate_shape|].
    split; [rewrite length_app, length_replicate; lia|]. split.
    + intros g b Hg Hb. apply elem_of_app in Hg as [Hg|Hg].
      * left. eapply elem_of_sublist; [|exact Hsub].
        rewrite <- Hcat. apply elem_of_concat_groups. eauto.
      * right. apply elem_of_replicate in Hg as [-> _]. done.
    + intros b Hb Hnt.
      assert (b ∈ filter (fun b => ~ trimmable b) allBlocks) as Hin
        by (by apply list_elem_of_filter).
      rewrite <- Hkeep in Hin. apply list_elem_of_filter in Hin as [_ Hin].
      rewrite <- Hcat in Hin. apply elem_of_concat_groups in Hin as (g & Hg & Hbg).
      exists g. split; [|done]. apply elem_of_app. by left.
Qed.

(** X15. The derived font size always lies between 9 and 13 points and the
    line spacing between 1.1 and 2.0; for every scale the fit pass can
    return the clamps are idle, so that size and spacing are 11 and 1.5
    times the scale. *)
Theorem scaled_design_within_range (s : Q) (allBlocks : option (list Block)) (n : Z) :
  (9 <= Generator.scaledSize s <= 13)%Q /\
  (1.1 <= Generator.scaledSpacing s <= 2.0)%Q /\
  (Generator.scaledSize (scale (optimizeContentToFit allBlocks n))
     == 11 * scale (optimizeContentToFit allBlocks n))%Q /\
  (Generator.scaledSpacing (scale (optimizeContentToFit allBlocks n))
     == 1.5 * scale (optimizeContentToFit allBlocks n))%Q.
Proof.
  unfold Generator.scaledSize, Generator.scaledSpacing.
  split; [|split].
  - split; [apply Q.le_max_l|].
    apply Q.max_lub; [done|apply Q.le_min_l].
  - split; [apply Q.le_max_l|].
    apply Q.max_lub; [done|apply Q.le_min_l].
  - assert (Hs : scale (optimizeContentToFit allBlocks n) = 0.88%Q \/
                 scale (optimizeContentToFit allBlocks n) = 1%Q \/
                 scale (optimizeContentToFit allBlocks n) = 1.12%Q).
    { destruct allBlocks as [[|b bs]|]; [simpl; auto| |simpl; auto].
      rewrite fit_scale. apply scaleRule_cases. }
    destruct Hs as [-> | [-> | ->] ]; split; vm_compute; reflexivity.
Qed.

(* ===================================================================== *)
(** * Further properties of the renderer *)
(* ===================================================================== *)

Import RenderFacts.






Lemma announcedPages_app l1 l2 :
  announcedPages (l1 ++ l2) = announcedPages l1 ++ announcedPages l2.
Proof. apply omap_app. Qed.

Lemma announcedPages_flat_map_nil {A} (f : A -> list Call) (l : list A) :
  Forall (fun a => announcedPages (f a) = []) l ->
  announcedPages (flat_map f l) = [].
Proof.
  induction 1 as [|a l Ha _ IH]; simpl; [done|].
  by rewrite announcedPages_app, Ha, IH.
Qed.

Lemma renderElement_announces_nothing fit e :
  forall ctx, announcedPages (renderElement fit e ctx) = [].
Proof.
  induction e as [id layout|id layout children IH|id layout data|id layout img|id layout sh]
    using PDFElement_tree_ind; intros ctx.
  - reflexivity.
  - rewrite renderElement_Box, !announcedPages_app.
    rewrite announcedPages_flat_map_nil; [done|].
    apply Forall_drawOrder. eapply Forall_impl; [exact IH|]. simpl. auto.
  - simpl. unfold renderTextElement.
    destruct (gradientFill (style data)), (stroke (style data)); reflexivity.
  - simpl. unfold renderImageElement. destruct (shadow img); reflexivity.
  - reflexivity.
Qed.

Lemma renderPage_announces fit dpi page :
  announcedPages (renderPage fit dpi page) = [resolvePageSize (size page) dpi].
Proof.
  unfold renderPage. destruct (resolvePageSize (size page) dpi) as [w h].
  rewrite !announcedPages_app.
  rewrite announcedPages_flat_map_nil
    by (apply Forall_forall; intros el _; apply renderElement_announces_nothing).
  unfold pageBackground. destruct (_ || _); [|done].
  destruct (backgroundImage page); reflexivity.
Qed.

Lemma announcedPages_renderPDFDocument fit doc targetDpi :
  announcedPages (renderPDFDocument fit doc targetDpi)
    = map (fun page => resolvePageSize (size page) targetDpi) (doc_pages doc).
Proof.
  assert (H : forall pgs,
             announcedPages (flat_map (renderPage fit targetDpi) pgs)
             = map (fun page => resolvePageSize (size page) targetDpi) pgs).
  { intros pgs. induction pgs as [|page pgs IH]; cbn [flat_map map]; [done|].
    by rewrite announcedPages_app, renderPage_announces, IH. }
  unfold renderPDFDocument. rewrite !announcedPages_app, H.
  cbn [announcedPages omap list_omap]. by rewrite app_nil_r.
Qed.

(** X17. The backend is told to open exactly the pages of the document, in
    the document's order, each with the size [resolvePageSize] gives it;
    no element, however deeply nested, opens a page. *)
Theorem renderPDFDocument_announces_pages
    (fit : Rect -> string -> Rect) (doc : PDFDocument) (targetDpi : Q) :
  announcedPages (renderPDFDocument fit doc targetDpi)
    = map (fun page => resolvePageSize (size page) targetDpi) (doc_pages doc) /\
  (forall e ctx, announcedPages (renderElement fit e ctx) = []).
Proof.
  split; [apply announcedPages_renderPDFDocument|].
  intros e ctx. apply renderElement_announces_nothing.
Qed.

Lemma drawnTexts_app l1 l2 : drawnTexts (l1 ++ l2) = drawnTexts l1 ++ drawnTexts l2.
Proof. apply omap_app. Qed.

Lemma drawnTexts_flat_map {A} (f : A -> list Call) (g : A -> list string) (l : list A) :
  Forall (fun a => drawnTexts (f a) ≡ₚ g a) l ->
  drawnTexts (flat_map f l) ≡ₚ flat_map g l.
Proof.
  induction 1 as [|a l Ha _ IH]; simpl; [done|].
  by rewrite drawnTexts_app, Ha, IH.
Qed.

Lemma flat_map_perm {A B} (g : A -> list B) (l1 l2 : list A) :
  l1 ≡ₚ l2 -> flat_map g l1 ≡ₚ flat_map g l2.
Proof.
  induction 1 as [|x l1 l2 _ IH|x y l|l1 l2 l3 _ IH1 _ IH2]; simpl.
  - done.
  - by rewrite IH.
  - rewrite !app_assoc. f_equiv. apply Permutation_app_comm.
  - by rewrite IH1.
Qed.

Lemma renderElement_texts fit e :
  forall ctx, drawnTexts (renderElement fit e ctx) ≡ₚ allTexts e.
Proof.
  induction e as [id layout|id layout children IH|id layout data|id layout img|id layout sh]
    using PDFElement_tree_ind; intros ctx.
  - reflexivity.
  - rewrite renderElement_Box, !drawnTexts_app. simpl. rewrite app_nil_r.
    rewrite (drawnTexts_flat_map _ allTexts).
    + apply flat_map_perm, drawOrder_perm.
    + apply Forall_drawOrder. eapply Forall_impl; [exact IH|]. simpl. auto.
  - simpl. unfold renderTextElement.
    destruct (gradientFill (style data)), (stroke (style data)); reflexivity.
  - simpl. unfold renderImageElement. destruct (shadow img); reflexivity.
  - reflexivity.
Qed.

(** X18. Rendering draws every text element of the document exactly once
    and draws no other text: the strings of the [drawText] calls are, up to
    the order the z-indices impose, the strings of the text elements of
    all pages, nested ones included. *)
Theorem renderPDFDocument_draws_each_text_once
    (fit : Rect -> string -> Rect) (doc : PDFDocument) (targetDpi : Q) :
  drawnTexts (renderPDFDocument fit doc targetDpi)
    ≡ₚ flat_map (fun page => flat_map allTexts (elements page)) (doc_pages doc).
Proof.
  unfold renderPDFDocument. rewrite !drawnTexts_app. simpl. rewrite app_nil_r.
  apply drawnTexts_flat_map, Forall_forall. intros page _.
  unfold renderPage. destruct (resolvePageSize (size page) targetDpi) as [w h].
  rewrite !drawnTexts_app.
  assert (drawnTexts (pageBackground page w h) = []) as ->.
  { unfold pageBackground. destruct (_ || _); [|done].
    destruct (backgroundImage page); reflexivity. }
  simpl. rewrite app_nil_r.
  rewrite (drawnTexts_flat_map _ allTexts).
  - apply flat_map_perm, drawOrder_perm.
  - apply Forall_forall. intros el _. apply renderElement_texts.
Qed.




Lemma drawOrder_sorted_id l :
  StronglySorted (fun a b => zOf a <= zOf b) l -> drawOrder l = l.
Proof.
  intros Hl. symmetry.
  destruct (drawOrder_in_z_order l) as [Hs' Hf'].
  apply (sorted_stable_unique zOf); [done..|]. intros z. by rewrite Hf'.
Qed.

Lemma drawOrder_unset_id l :
  Forall (fun e => zIndex (layout_of e) = None) l -> drawOrder l = l.
Proof.
  intros Hall. apply drawOrder_sorted_id.
  induction Hall as [|e l He Hl IH]; constructor; [done|].
  eapply Forall_impl; [exact Hl|]. simpl. intros e' He'.
  unfold zOf. rewrite He, He'. done.
Qed.

(** X20. Sorting changes nothing when the elements already come by
    ascending z-index, in particular when none of them sets one: they are
    then drawn in document order; and sorting twice is sorting once. *)
Theorem drawOrder_of_sorted (els : list PDFElement) :
  (StronglySorted (fun a b => zOf a <= zOf b) els -> drawOrder els = els) /\
  (Forall (fun e => zIndex (layout_of e) = None) els -> drawOrder els = els) /\
  drawOrder (drawOrder els) = drawOrder els.
Proof.
  split; [apply drawOrder_sorted_id|]. split; [apply drawOrder_unset_id|].
  apply drawOrder_sorted_id, drawOrder_in_z_order.
Qed.

Lemma drawOrder_of_sorted_witness :
  Forall (fun e => zIndex (layout_of e) = None)
         [label_at None "first"; label_at None "second"] /\
  drawOrder [label_at None "first"; label_at None "second"]
    = [label_at None "first"; label_at None "second"].
Proof.
  assert (H : Forall (fun e => zIndex (layout_of e) = None)
                     [label_at None "first"; label_at None "second"])
    by (repeat constructor).
  split; [exact H|].
  exact (proj1 (proj2 (drawOrder_of_sorted _)) H).
Defined.

(* ===================================================================== *)
(** * Further properties of the Textora adapter *)
(* ===================================================================== *)

Import AdapterFacts.

Lemma imap_sizes {A} (g : nat -> A -> PDFPage) (l : list A) dpi :
  (forall i x, size (g i x) = A4_SIZE) ->
  map (fun page => resolvePageSize (size page) dpi) (imap g l)
    = replicate (length l) (Some 595.28%Q, Some 841.89%Q).
Proof.
  revert g. induction l as [|x l IH]; intros g Hg; [done|].
  rewrite imap_cons. cbn [map length replicate].
  rewrite Hg, IH by (intros; apply Hg). reflexivity.
Qed.

(** X21. The adapted document has the cover followed by one page for each
    source page; whatever the landscape flag and the settings, every page
    is A4 portrait, so that rendering opens that many pages of 595.28 by
    841.89 points. *)
Theorem adapted_document_pages
    (source : TextoraDoc) (settings : TextoraSettings) (isLandscape : bool)
    (fit : Rect -> string -> Rect) (dpi : Q) :
  length (doc_pages (buildPdfDocumentFromTextora source settings isLandscape))
    = S (length (default [] (Adapter.pages source))) /\
  head (doc_pages (buildPdfDocumentFromTextora source settings isLandscape))
    = Some (coverPage source) /\
  announcedPages
    (renderPDFDocument fit (buildPdfDocumentFromTextora source settings isLandscape) dpi)
    = replicate (S (length (default [] (Adapter.pages source)))) (Some 595.28%Q, Some 841.89%Q).
Proof.
  split; [|split; [done|]].
  - unfold buildPdfDocumentFromTextora. cbn [doc_pages length].
    by rewrite length_imap.
  - rewrite announcedPages_renderPDFDocument.
    unfold buildPdfDocumentFromTextora. cbn [doc_pages map replicate].
    rewrite imap_sizes by done. reflexivity.
Qed.

Lemma StronglySorted_snoc {A} (R : A -> A -> Prop) (l : list A) (x : A) :
  StronglySorted R l -> Forall (fun a => R a x) l -> StronglySorted R (l ++ [x]).
Proof.
  induction 1 as [|a l Hl IH Ha]; intros Hx; simpl.
  - repeat constructor.
  - apply Forall_cons in Hx as [Hax Hx].
    constructor; [by apply IH|].
    apply Forall_app. split; [done|]. by constructor.
Qed.

(** What the walk keeps true: the elements placed so far do not overlap,
    and all end above the cursor. *)
Lemma visitBlock_stacks pageIndex w blockIndex block :
  StronglySorted (fun a b => (bottom a <= top b)%Q) (walk_elements w) ->
  Forall (fun e => (bottom e <= inject_Z (cursorY w))%Q) (walk_elements w) ->
  StronglySorted (fun a b => (bottom a <= top b)%Q)
    (walk_elements (visitBlock pageIndex w blockIndex block)) /\
  Forall (fun e => (bottom e <= inject_Z (cursorY (visitBlock pageIndex w blockIndex block)))%Q)
    (walk_elements (visitBlock pageIndex w blockIndex block)).
Proof.
  intros Hs Hb.
  assert (Hgrow : forall adv h e,
            0 <= adv -> (h <= inject_Z adv)%Q ->
            top e = inject_Z (cursorY w) -> (bottom e == inject_Z (cursorY w) + h)%Q ->
            StronglySorted (fun a b => (bottom a <= top b)%Q) (walk_elements w ++ [e]) /\
            Forall (fun e' => (bottom e' <= inject_Z (cursorY w + adv))%Q)
                   (walk_elements w ++ [e])).
  { intros adv h e Hadv Hh Ht Hbe.
    assert (Hc : (inject_Z (cursorY w) <= inject_Z (cursorY w + adv))%Q)
      by (rewrite <- Zle_Qle; lia).
    split.
    - apply StronglySorted_snoc; [done|].
      eapply Forall_impl; [exact Hb|]. simpl. intros a Ha. by rewrite Ht.
    - apply Forall_app. split.
      + eapply Forall_impl; [exact Hb|]. simpl. intros a Ha. lra.
      + constructor; [|constructor]. rewrite Hbe, inject_Z_plus. lra. }
  destruct block as [b|]; [|done]. unfold visitBlock.
  destruct (String.eqb (type b) "h2").
  { apply (Hgrow (lineHeight * 2) 30%Q); [done|done|done|]. unfold bottom, top. simpl. lra. }
  destruct (String.eqb (type b) "p").
  { apply (Hgrow (lineHeight * 3) 60%Q); [done|done|done|]. unfold bottom, top. simpl. lra. }
  destruct (String.eqb (type b) "stat").
  { apply (Hgrow 100 80%Q); [done|done|done|]. unfold bottom, top. simpl. lra. }
  done.
Qed.

Lemma forEach_from_stacks pageIndex l i w :
  StronglySorted (fun a b => (bottom a <= top b)%Q) (walk_elements w) ->
  Forall (fun e => (bottom e <= inject_Z (cursorY w))%Q) (walk_elements w) ->
  StronglySorted (fun a b => (bottom a <= top b)%Q)
    (walk_elements (forEach_from (visitBlock pageIndex) i l w)).
Proof.
  revert i w. induction l as [|o l IH]; intros i w Hs Hb; simpl; [done|].
  destruct (visitBlock_stacks pageIndex w i o Hs Hb) as [Hs' Hb'].
  by apply IH.
Qed.

(** X22. On every page of the adapted document the elements are stacked
    top to bottom without overlap: each element ends at or above the line
    where the next one starts. *)
Theorem adapted_elements_do_not_overlap
    (source : TextoraDoc) (settings : TextoraSettings) (isLandscape : bool)
    (page : PDFPage) :
  page ∈ doc_pages (buildPdfDocumentFromTextora source settings isLandscape) ->
  StronglySorted (fun a b => (bottom a <= top b)%Q) (elements page).
Proof.
  unfold buildPdfDocumentFromTextora. cbn [doc_pages].
  intros [->|Hin]%elem_of_cons.
  - unfold coverPage. cbn [elements].
    destruct (nonempty (doc_title source)), (nonempty (subtitle source));
      repeat constructor.
    unfold bottom, top. simpl. lra.
  - apply list_elem_of_lookup in Hin as (i & Hi).
    rewrite list_lookup_imap in Hi.
    destruct (default [] (Adapter.pages source) !! i) as [src|]; [|done].
    injection Hi as <-. unfold contentPage. cbn [elements]. unfold walkContent.
    apply forEach_from_stacks; cbn [walk_elements cursorY]; unfold titleElements;
      destruct (nonempty (title src)); repeat constructor.
    unfold bottom, top, Qle. simpl. lia.
Qed.

Lemma adapted_elements_do_not_overlap_witness :
  contentPage 0 (mkTextoraPage (Some "Title")
                   (Some [Some (blk "h2"); Some (blk "stat"); None; Some (blk "p")]))
    ∈ doc_pages (buildPdfDocumentFromTextora
                   (mkTextoraDoc (Some "Doc") None
                      (Some [mkTextoraPage (Some "Title")
                               (Some [Some (blk "h2"); Some (blk "stat"); None;
                                      Some (blk "p")])]))
                   (mkSettings None None None) false) /\
  StronglySorted (fun a b => (bottom a <= top b)%Q)
    (elements (contentPage 0 (mkTextoraPage (Some "Title")
                 (Some [Some (blk "h2"); Some (blk "stat"); None; Some (blk "p")])))).
Proof.
  assert (H : contentPage 0 (mkTextoraPage (Some "Title")
                   (Some [Some (blk "h2"); Some (blk "stat"); None; Some (blk "p")]))
    ∈ doc_pages (buildPdfDocumentFromTextora
                   (mkTextoraDoc (Some "Doc") None
                      (Some [mkTextoraPage (Some "Title")
                               (Some [Some (blk "h2"); Some (blk "stat"); None;
                                      Some (blk "p")])]))
                   (mkSettings None None None) false)).
  { unfold buildPdfDocumentFromTextora. cbn [doc_pages]. right. left. }
  split; [exact H|].
  exact (adapted_elements_do_not_overlap _ _ _ _ H).
Defined.

Section AdapterThroughRenderer.

Variable fit : Rect -> string -> Rect.
Variable ctx : LayoutContext.

(** The strings one element makes the backend draw. *)
Lemma drawnTexts_flat_map_eq {A} (f : A -> list Call) (l : list A) :
  drawnTexts (flat_map f l) = flat_map (fun a => drawnTexts (f a)) l.
Proof.
  induction l as [|a l IH]; simpl; [done|].
  by rewrite drawnTexts_app, IH.
Qed.

Lemma visitBlock_unset_z pageIndex w blockIndex block :
  Forall (fun e => zIndex (layout_of e) = None) (walk_elements w) ->
  Forall (fun e => zIndex (layout_of e) = None)
         (walk_elements (visitBlock pageIndex w blockIndex block)).
Proof.
  intros H. destruct block as [b|]; [|done]. unfold visitBlock.
  repeat (destruct (String.eqb (type b) _);
          [apply Forall_app; split; [done|by repeat constructor]|]).
  done.
Qed.

Lemma visitBlock_texts pageIndex w blockIndex block :
  flat_map (fun e => drawnTexts (renderElement fit e ctx))
           (walk_elements (visitBlock pageIndex w blockIndex block))
  = flat_map (fun e => drawnTexts (renderElement fit e ctx)) (walk_elements w)
    ++ blockTexts block.
Proof.
  destruct block as [b|]; [|by rewrite app_nil_r].
  unfold visitBlock, blockTexts.
  destruct (String.eqb_spec (type b) "h2") as [Hh|Hh].
  { rewrite bool_decide_eq_true_2 by auto.
    cbn [walk_elements]. rewrite flat_map_app. f_equal. }
  destruct (String.eqb_spec (type b) "p") as [Hp|Hp].
  { rewrite bool_decide_eq_true_2 by auto.
    cbn [walk_elements]. rewrite flat_map_app. f_equal. }
  rewrite bool_decide_eq_false_2 by tauto.
  destruct (String.eqb_spec (type b) "stat") as [Hst|Hst].
  { rewrite bool_decide_eq_true_2 by auto.
    cbn [walk_elements]. rewrite flat_map_app. f_equal. }
  rewrite bool_decide_eq_false_2 by auto. by rewrite app_nil_r.
Qed.

Lemma forEach_from_walk pageIndex l i w :
  Forall (fun e => zIndex (layout_of e) = None) (walk_elements w) ->
  Forall (fun e => zIndex (layout_of e) = None)
         (walk_elements (forEach_from (visitBlock pageIndex) i l w)) /\
  flat_map (fun e => drawnTexts (renderElement fit e ctx))
           (walk_elements (forEach_from (visitBlock pageIndex) i l w))
  = flat_map (fun e => drawnTexts (renderElement fit e ctx)) (walk_elements w)
    ++ flat_map blockTexts l.
Proof.
  revert i w. induction l as [|o l IH]; intros i w Hz; simpl.
  - by rewrite app_nil_r.
  - destruct (IH (S i) (visitBlock pageIndex w i o)) as [Hz' Ht'];
      [by apply visitBlock_unset_z|].
    split; [done|]. by rewrite Ht', visitBlock_texts, <- app_assoc.
Qed.

Lemma nonempty_shown s :
  (if nonempty s then [str s] else []) = shown s.
Proof. destruct s as [v|]; simpl; [|done]. by destruct (String.eqb v ""). Qed.

End AdapterThroughRenderer.

Lemma renderPage_texts_unset fit dpi page :
  Forall (fun e => zIndex (layout_of e) = None) (elements page) ->
  drawnTexts (renderPage fit dpi page)
    = flat_map (fun e => drawnTexts (renderElement fit e (mkLayoutContext dpi)))
               (elements page).
Proof.
  intros Hz. unfold renderPage.
  destruct (resolvePageSize (size page) dpi) as [w h].
  rewrite !drawnTexts_app, drawOrder_unset_id by done.
  assert (drawnTexts (pageBackground page w h) = []) as ->.
  { unfold pageBackground. destruct (_ || _); [|done].
    destruct (backgroundImage page); reflexivity. }
  cbn [app]. rewrite drawnTexts_flat_map_eq.
  change (drawnTexts [endPage]) with (@nil string). by rewrite app_nil_r.
Qed.

Lemma coverPage_texts fit dpi source :
  drawnTexts (renderPage fit dpi (coverPage source))
    = shown (doc_title source) ++ shown (subtitle source).
Proof.
  rewrite renderPage_texts_unset.
  - unfold coverPage. cbn [elements]. rewrite flat_map_app.
    rewrite <- !nonempty_shown.
    destruct (nonempty (doc_title source)), (nonempty (subtitle source)); reflexivity.
  - unfold coverPage. cbn [elements].
    destruct (nonempty (doc_title source)), (nonempty (subtitle source));
      repeat constructor.
Qed.

Lemma contentPage_texts fit dpi i page :
  drawnTexts (renderPage fit dpi (contentPage i page))
    = shown (title page) ++ flat_map blockTexts (default [] (content page)).
Proof.
  assert (Hz0 : Forall (fun e => zIndex (layout_of e) = None) (titleElements i page)).
  { unfold titleElements. destruct (nonempty (title page)); repeat constructor. }
  destruct (forEach_from_walk fit (mkLayoutContext dpi) i (default [] (content page)) 0
              (mkWalk (titleElements i page) 130) Hz0) as [Hz Ht].
  rewrite renderPage_texts_unset by exact Hz.
  unfold contentPage. cbn [elements]. unfold walkContent. rewrite Ht.
  f_equal. cbn [walk_elements]. rewrite <- nonempty_shown.
  unfold titleElements. destruct (nonempty (title page)); reflexivity.
Qed.

(** X23. Through the adapter and the renderer the backend is asked to draw
    exactly the strings of the source, in reading order: the title and the
    subtitle of the cover, then for each page its title and, block by
    block, the text of a heading or paragraph and the value and label of a
    statistic. Blocks of any other type, missing blocks and empty titles
    contribute no [drawText] call. *)
Theorem adapted_document_draws_source_texts
    (source : TextoraDoc) (settings : TextoraSettings) (isLandscape : bool)
    (fit : Rect -> string -> Rect) (dpi : Q) :
  drawnTexts
    (renderPDFDocument fit (buildPdfDocumentFromTextora source settings isLandscape) dpi)
  = sourceTexts source.
Proof.
  unfold renderPDFDocument, buildPdfDocumentFromTextora, sourceTexts.
  cbn [doc_pages metadata colorProfile flat_map].
  rewrite !drawnTexts_app, coverPage_texts.
  change (drawnTexts [beginDocument _ _ _]) with (@nil string).
  change (drawnTexts [endDocument]) with (@nil string).
  rewrite app_nil_r. cbn [app]. rewrite <- app_assoc. do 2 f_equal.
  rewrite drawnTexts_flat_map_eq.
  generalize (default [] (Adapter.pages source)). intros pgs.
  assert (H : forall (g : nat -> TextoraPage -> PDFPage),
            (forall i p, drawnTexts (renderPage fit dpi (g i p))
                         = shown (title p) ++ flat_map blockTexts (default [] (content p))) ->
            flat_map (fun a => drawnTexts (renderPage fit dpi a)) (imap g pgs)
            = flat_map (fun p => shown (title p)
                                 ++ flat_map blockTexts (default [] (content p))) pgs).
  { induction pgs as [|p pgs IH]; intros g Hg; [done|].
    rewrite imap_cons. cbn [flat_map]. rewrite Hg. f_equal.
    apply IH. intros i q. apply Hg. }
  apply H. intros i p. apply contentPage_texts.
Qed.

(* ===================================================================== *)
(** * Properties of the editing operations *)
(* ===================================================================== *)

Lemma filter_index_from_spec {A} (arr : list A) (n : nat) (i : Z) :
  (i < Z.of_nat n -> Editing.filter_index_from n i arr = arr) /\
  (Z.of_nat n <= i ->
   Editing.filter_index_from n i arr
     = take (Z.to_nat i - n) arr ++ drop (S (Z.to_nat i - n)) arr).
Proof.
  revert n. induction arr as [|x arr IH]; intros n; simpl.
  - split; intros _; [done|]. by rewrite take_nil.
  - destruct (IH (S n)) as [IHlt IHge].
    destruct (Z.eqb_spec (Z.of_nat n) i) as [<-|Hne]; split; intros H; try lia.
    + replace (Z.to_nat (Z.of_nat n) - n)%nat with O by lia. simpl.
      rewrite drop_0. apply IHlt. lia.
    + rewrite IHlt by lia. done.
    + rewrite IHge by lia.
      replace (Z.to_nat i - n)%nat with (S (Z.to_nat i - S n)) by lia. done.
Qed.

Lemma filter_index_in_range {A} (arr : list A) (i : nat) :
  Editing.filter_index (Z.of_nat i) arr = take i arr ++ drop (S i) arr.
Proof.
  unfold Editing.filter_index.
  rewrite (proj2 (filter_index_from_spec arr 0 (Z.of_nat i))) by lia.
  by rewrite Nat.sub_0_r, Nat2Z.id.
Qed.

Lemma filter_index_out_of_range {A} (arr : list A) (i : Z) :
  i < 0 \/ Z.of_nat (length arr) <= i -> Editing.filter_index i arr = arr.
Proof.
  unfold Editing.filter_index. intros [Hneg|Hbig].
  - apply (proj1 (filter_index_from_spec arr 0 i)). lia.
  - rewrite (proj2 (filter_index_from_spec arr 0 i)) by lia.
    rewrite Nat.sub_0_r, take_ge, drop_ge by lia. by rewrite app_nil_r.
Qed.

Lemma page_at_Some pd (p : nat) pg :
  pd !! p = Some pg -> Editing.page_at pd (Z.of_nat p) = Some pg.
Proof.
  intros H. unfold Editing.page_at.
  destruct (Z.ltb_spec (Z.of_nat p) 0); [lia|]. by rewrite Nat2Z.id.
Qed.

(** X24. Confirming the deletion of block [b] of page [p] removes exactly
    that block: the page keeps its other blocks in order and every other
    page is untouched; an index outside the page removes nothing; a page
    index outside the document makes the handler throw. *)
Theorem confirmDeleteBlock_removes_one
    (pageData : Editing.PageData) (p : nat) (blockIndex : Z) (page : Editing.Page) :
  (pageData !! p = Some page ->
   exists page',
     Editing.confirmDeleteBlock pageData (Z.of_nat p) blockIndex
       = Editing.Updated (<[p := page']> pageData) /\
     (forall b : nat, blockIndex = Z.of_nat b -> (b < length page)%nat ->
        page' = take b page ++ drop (S b) page /\
        S (length page') = length page) /\
     (blockIndex < 0 \/ Z.of_nat (length page) <= blockIndex -> page' = page) /\
     (forall q, q <> p -> (<[p := page']> pageData) !! q = pageData !! q)) /\
  (pageData !! p = None ->
   Editing.confirmDeleteBlock pageData (Z.of_nat p) blockIndex = Editing.TypeError).
Proof.
  split.
  - intros Hp. exists (Editing.filter_index blockIndex page).
    unfold Editing.confirmDeleteBlock. rewrite (page_at_Some _ _ _ Hp), Nat2Z.id.
    split; [done|]. split; [|split].
    + intros b -> Hb. rewrite filter_index_in_range. split; [done|].
      rewrite length_app, length_take, length_drop. lia.
    + apply filter_index_out_of_range.
    + intros q Hq. apply list_lookup_insert_ne. congruence.
  - intros Hp. unfold Editing.confirmDeleteBlock, Editing.page_at.
    destruct (Z.ltb_spec (Z.of_nat p) 0); [done|]. by rewrite Nat2Z.id, Hp.
Qed.

Lemma confirmDeleteBlock_removes_one_witness :
  [[Some (blk "h2"); Some (blk "p"); Some (blk "quote")]] !! 0%nat
    = Some [Some (blk "h2"); Some (blk "p"); Some (blk "quote")] /\
  Editing.confirmDeleteBlock [[Some (blk "h2"); Some (blk "p"); Some (blk "quote")]] 0 1
    = Editing.Updated [[Some (blk "h2"); Some (blk "quote")]].
Proof.
  split; [reflexivity|].
  destruct (confirmDeleteBlock_removes_one
              [[Some (blk "h2"); Some (blk "p"); Some (blk "quote")]] 0 1
              [Some (blk "h2"); Some (blk "p"); Some (blk "quote")]) as [H _].
  destruct (H eq_refl) as (page' & Heq & Hin & _).
  destruct (Hin 1%nat eq_refl ltac:(simpl; lia)) as [-> _]. exact Heq.
Defined.





Lemma array_get_in_range {A} (arr : list (option A)) (i : nat) x :
  arr !! i = Some x -> Editing.array_get arr (Z.of_nat i) = x.
Proof.
  intros H. unfold Editing.array_get.
  destruct (Z.ltb_spec (Z.of_nat i) 0); [lia|]. by rewrite Nat2Z.id, H.
Qed.

Lemma array_set_in_range {A} (arr : list (option A)) (i : nat) v :
  (i < length arr)%nat -> Editing.array_set arr (Z.of_nat i) v = <[i := v]> arr.
Proof.
  intros H. unfold Editing.array_set.
  destruct (Z.ltb_spec (Z.of_nat i) 0); [lia|].
  destruct (Z.ltb_spec (Z.of_nat i) (Z.of_nat (length arr))); [|lia].
  by rewrite Nat2Z.id.
Qed.

Lemma handleMoveBlock_in_range (pageData : list (list (option Block))) (p b t : nat)
    (page : list (option Block)) (direction : string) x y :
  pageData !! p = Some page ->
  page !! b = Some x -> page !! t = Some y ->
  Z.of_nat t = (if String.eqb direction "up" then Z.of_nat b - 1 else Z.of_nat b + 1) ->
  Editing.handleMoveBlock pageData (Z.of_nat p) (Z.of_nat b) direction
    = Editing.Updated (<[p := <[t := x]> (<[b := y]> page)]> pageData).
Proof.
  intros Hp Hb Ht Hdir. unfold Editing.handleMoveBlock.
  rewrite (page_at_Some _ _ _ Hp). cbv zeta. rewrite <- Hdir.
  pose proof (lookup_lt_Some _ _ _ Hb). pose proof (lookup_lt_Some _ _ _ Ht).
  destruct (Z.leb_spec 0 (Z.of_nat t)); [|lia].
  destruct (Z.ltb_spec (Z.of_nat t) (Z.of_nat (length page))); [|lia].
  cbn [andb]. rewrite (array_get_in_range _ _ _ Hb), (array_get_in_range _ _ _ Ht).
  rewrite (array_set_in_range _ b) by done.
  rewrite (array_set_in_range _ t) by (by rewrite length_insert).
  by rewrite Nat2Z.id.
Qed.

(** X26. Moving block [b] of a page down exchanges it with block [b+1]
    and touches nothing else, on that page or on any other; moving block
    [b+1] up is the same edit; and moving the block back (up from [b+1],
    or down from [b] again) restores the document. *)
Theorem handleMoveBlock_swaps_neighbours
    (pageData : Editing.PageData) (p b : nat) (page : Editing.Page) :
  pageData !! p = Some page ->
  (S b < length page)%nat ->
  exists page',
    let moved := <[p := page']> pageData in
    Editing.handleMoveBlock pageData (Z.of_nat p) (Z.of_nat b) "down"
      = Editing.Updated moved /\
    Editing.handleMoveBlock pageData (Z.of_nat p) (Z.of_nat b + 1) "up"
      = Editing.Updated moved /\
    length page' = length page /\
    page' !! b = page !! S b /\
    page' !! S b = page !! b /\
    (forall j, j <> b -> j <> S b -> page' !! j = page !! j) /\
    (forall q, q <> p -> moved !! q = pageData !! q) /\
    Editing.handleMoveBlock moved (Z.of_nat p) (Z.of_nat b + 1) "up"
      = Editing.Updated pageData /\
    Editing.handleMoveBlock moved (Z.of_nat p) (Z.of_nat b) "down"
      = Editing.Updated pageData.
Proof.
  unfold Editing.PageData, Editing.Page in *. intros Hp Hlen.
  destruct (lookup_lt_is_Some_2 page b ltac:(lia)) as [x Hb].
  destruct (lookup_lt_is_Some_2 page (S b) Hlen) as [y Ht].
  pose proof (lookup_lt_Some _ _ _ Hp) as Hplt.
  assert (Hb' : <[S b := x]> (<[b := y]> page) !! b = Some y).
  { rewrite list_lookup_insert_ne by lia. apply list_lookup_insert_eq. lia. }
  assert (Ht' : <[S b := x]> (<[b := y]> page) !! S b = Some x).
  { apply list_lookup_insert_eq. rewrite length_insert. lia. }
  assert (Hp' : forall pg : list (option Block), <[p := pg]> pageData !! p = Some pg).
  { intros pg. by apply list_lookup_insert_eq. }
  assert (Hswap : <[S b := y]> (<[b := x]> (<[S b := x]> (<[b := y]> page))) = page).
  { rewrite (list_insert_insert_ne _ b (S b)) by lia.
    rewrite !list_insert_insert_eq.
    by rewrite (list_insert_id page b x Hb), (list_insert_id page (S b) y Ht). }
  replace (Z.of_nat b + 1) with (Z.of_nat (S b)) by lia.
  exists (<[S b := x]> (<[b := y]> page)). cbv zeta.
  split; [|split; [|split; [|split; [|split; [|split; [|split; [|split] ] ] ] ] ] ].
  - apply (handleMoveBlock_in_range pageData p b (S b) page "down" x y);
      [done..|simpl; lia].
  - rewrite (handleMoveBlock_in_range pageData p (S b) b page "up" y x);
      [|done..|simpl; lia].
    by rewrite list_insert_insert_ne by lia.
  - by rewrite !length_insert.
  - by rewrite Hb', Ht.
  - by rewrite Ht', Hb.
  - intros j Hj1 Hj2. by rewrite !list_lookup_insert_ne by lia.
  - intros q Hq. apply list_lookup_insert_ne. congruence.
  - rewrite (handleMoveBlock_in_range _ p (S b) b _ "up" x y (Hp' _) Ht' Hb');
      [|simpl; lia].
    rewrite list_insert_insert_eq.
    rewrite (list_insert_insert_ne _ b (S b)) by lia.
    rewrite Hswap. f_equal. by apply list_insert_id.
  - rewrite (handleMoveBlock_in_range _ p b (S b) _ "down" y x (Hp' _) Hb' Ht');
      [|simpl; lia].
    rewrite list_insert_insert_eq, Hswap. f_equal. by apply list_insert_id.
Qed.

Lemma handleMoveBlock_swaps_neighbours_witness :
  Editing.handleMoveBlock [[Some (blk "h2"); Some (blk "p"); Some (blk "quote")]] 0 0 "down"
    = Editing.Updated [[Some (blk "p"); Some (blk "h2"); Some (blk "quote")]] /\
  Editing.handleMoveBlock [[Some (blk "p"); Some (blk "h2"); Some (blk "quote")]] 0 1 "up"
    = Editing.Updated [[Some (blk "h2"); Some (blk "p"); Some (blk "quote")]].
Proof.
  destruct (handleMoveBlock_swaps_neighbours
              [[Some (blk "h2"); Some (blk "p"); Some (blk "quote")]] 0 0
              [Some (blk "h2"); Some (blk "p"); Some (blk "quote")]
              eq_refl ltac:(simpl; lia))
    as (page' & Hdown & _ & _ & _ & _ & _ & _ & Hup & _).
  cbv zeta in Hdown, Hup.
  assert (Hpage : page' = [Some (blk "p"); Some (blk "h2"); Some (blk "quote")]).
  { vm_compute in Hdown. by injection Hdown as <-. }
  subst page'. split; [exact Hdown|exact Hup].
Defined.

(** X27. A block at the edge of its page stays where it is: moving the
    first block up, or the last block down, leaves the state alone; and a
    page index outside the document makes the handler throw, whatever the
    block and the direction. *)
Theorem handleMoveBlock_at_the_edges
    (pageData : Editing.PageData) (p : nat) (blockIndex : Z) (direction : string) :
  (forall page, pageData !! p = Some page ->
     Editing.handleMoveBlock pageData (Z.of_nat p) 0 "up" = Editing.NoUpdate /\
     Editing.handleMoveBlock pageData (Z.of_nat p) (Z.of_nat (length page) - 1) "down"
       = Editing.NoUpdate) /\
  (pageData !! p = None ->
   Editing.handleMoveBlock pageData (Z.of_nat p) blockIndex direction
     = Editing.TypeError) /\
  Editing.handleMoveBlock pageData (-1 - Z.of_nat p) blockIndex direction
    = Editing.TypeError.
Proof.
  split; [|split].
  - intros page Hp. unfold Editing.handleMoveBlock.
    rewrite (page_at_Some _ _ _ Hp). cbn [String.eqb Ascii.eqb Bool.eqb]. cbv zeta.
    split; [done|].
    destruct (Z.ltb_spec (Z.of_nat (length page) - 1 + 1) (Z.of_nat (length page)));
      [lia|]. by rewrite andb_false_r.
  - intros Hp. unfold Editing.handleMoveBlock, Editing.page_at.
    destruct (Z.ltb_spec (Z.of_nat p) 0); [done|]. by rewrite Nat2Z.id, Hp.
  - unfold Editing.handleMoveBlock, Editing.page_at.
    by destruct (Z.ltb_spec (-1 - Z.of_nat p) 0); [|lia].
Qed.

Lemma handleMoveBlock_at_the_edges_witness :
  Editing.handleMoveBlock [[Some (blk "h2"); Some (blk "p")]] 0 0 "up" = Editing.NoUpdate /\
  Editing.handleMoveBlock [[Some (blk "h2"); Some (blk "p")]] 0 1 "down" = Editing.NoUpdate.
Proof.
  destruct (handleMoveBlock_at_the_edges [[Some (blk "h2"); Some (blk "p")]] 0 0 "up")
    as (H & _).
  exact (H [Some (blk "h2"); Some (blk "p")] eq_refl).
Defined.
